(** * dl-pipe: the resumable download engine

    A shallow embedding of the Go package [dlpipe] (the option
    constructors, [RetryParameters.Wait], [runInner], [run] and
    [DownloadURL]) together with the properties of its retry policy, of its
    range-resume driver and of its finalization pipeline. *)

From Stdlib Require Import ZArith Lia.
From Stdlib.Strings Require Import Byte Ascii String.
From stdpp Require Import base option list gmap strings.

Local Open Scope Z_scope.

(** ** Machine integers

    Go's [int], [int64] and [time.Duration] are 64-bit signed, [uint64] is
    64-bit unsigned (the 64-bit platforms the tool is built for).  Values
    are carried as [Z]; every arithmetic operation of the source is followed
    by the wrap-around of its type. *)

Definition int64_wrap (z : Z) : Z := (z + 2 ^ 63) mod 2 ^ 64 - 2 ^ 63.
Definition uint64_wrap (z : Z) : Z := z mod 2 ^ 64.

Definition int64_ok (z : Z) : Prop := - 2 ^ 63 <= z < 2 ^ 63.
Definition uint64_ok (z : Z) : Prop := 0 <= z < 2 ^ 64.

(** [oneMB = 1 << 20]. *)
Definition oneMB : Z := Z.shiftl 1 20.

Abbreviation bytes := (list byte).

#[global] Instance byte_eq_dec : EqDecision byte := Byte.byte_eq_dec.

(** ** errors.go *)

(** The two values [ctx.Err()] can take once a context is done. *)
Inductive ctx_err := Canceled | DeadlineExceeded.

(** Error values.  [Errorf] keeps the format string of [fmt.Errorf] and
    the integer arguments of its [%d] verbs apart; [Errorfw] is
    [fmt.Errorf] with a final [%w] verb and the error it wraps.
    [ErrLibrary] stands for an error value made outside the package (by the
    HTTP transport, by a response body, by [fmt.Sscanf], by the URL
    parser), named by its message. *)
Inductive error :=
| ErrRetryParametersExceeded
| ErrHashMismatch (ExpectedHash GivenHash : bytes)
| ErrNonRetryable (inner : error)
| Errorf (format : string) (args : list Z)
| Errorfw (format : string) (args : list Z) (wrapped : error)
| ErrContext (e : ctx_err)
| ErrLibrary (msg : string).

Definition NonRetryableWrap (err : error) : error := ErrNonRetryable err.

(** [NonRetryableWrapf(format, args...)] is
    [ErrNonRetryable{inner: fmt.Errorf(format, args...)}]; its argument here
    is that inner error. *)
Definition NonRetryableWrapf (inner : error) : error := ErrNonRetryable inner.

(** [errors.As(err, &ErrNonRetryable{})] at the top of the chain. *)
Definition is_non_retryable (e : error) : bool :=
  match e with ErrNonRetryable _ => true | _ => false end.

(** ** The retry policy *)

Record RetryParameters := mkRetryParameters {
  MaxRetries : Z;
  BaseWait : Z;
  WaitMultiplier : Z;
  currentWait : Z;
  retryCtr : Z;
  prevPos : Z
}.

Definition millisecond : Z := 1000000.

Definition DefaultRetryParameters : RetryParameters :=
  {| MaxRetries := 5;
     BaseWait := 250 * millisecond;
     WaitMultiplier := 2;
     currentWait := 0; retryCtr := 0; prevPos := 0 |}.

Definition set_currentWait (v : Z) (p : RetryParameters) : RetryParameters :=
  {| MaxRetries := MaxRetries p; BaseWait := BaseWait p;
     WaitMultiplier := WaitMultiplier p;
     currentWait := v; retryCtr := retryCtr p; prevPos := prevPos p |}.

Definition set_retryCtr (v : Z) (p : RetryParameters) : RetryParameters :=
  {| MaxRetries := MaxRetries p; BaseWait := BaseWait p;
     WaitMultiplier := WaitMultiplier p;
     currentWait := currentWait p; retryCtr := v; prevPos := prevPos p |}.

Definition set_prevPos (v : Z) (p : RetryParameters) : RetryParameters :=
  {| MaxRetries := MaxRetries p; BaseWait := BaseWait p;
     WaitMultiplier := WaitMultiplier p;
     currentWait := currentWait p; retryCtr := retryCtr p; prevPos := v |}.

(** The condition of the [if] that resets the wait period,
    [p.currentWait == 0 ||
     (p.prevPos != 0 && currentPosition > p.prevPos+oneMB)],
    the sum being a [uint64] sum. *)
Definition reset_due (p : RetryParameters) (currentPosition : Z) : bool :=
  (currentWait p =? 0)
  || (negb (prevPos p =? 0)
      && (uint64_wrap (prevPos p + oneMB) <? currentPosition)).

(** What one call of [Wait] did: the error it returned, and the duration it
    gave to [time.After], if it got that far. *)
Record WaitResult := mkWaitResult {
  wait_err : option error;
  wait_timer : option Z;
  wait_params : RetryParameters
}.

(** [Wait].  The [select] is resolved by [done]: [None] when the timer
    fires first, [Some e] when the context is done first with
    [ctx.Err() = e].  The deferred function runs on both branches. *)
Definition Wait (p : RetryParameters) (done : option ctx_err)
    (currentPosition : Z) : WaitResult :=
  if MaxRetries p <=? retryCtr p then
    {| wait_err := Some ErrRetryParametersExceeded;
       wait_timer := None; wait_params := p |}
  else
    let p1 := if reset_due p currentPosition
              then set_currentWait (BaseWait p) p else p in
    let p2 := set_prevPos currentPosition p1 in
    let deferred (q : RetryParameters) :=
      let q1 := set_retryCtr (int64_wrap (retryCtr q + 1)) q in
      set_currentWait (int64_wrap (currentWait q1 * WaitMultiplier q1)) q1 in
    {| wait_err := ErrContext <$> done;
       wait_timer := Some (currentWait p2);
       wait_params := deferred p2 |}.

(** A sequence of calls on the same policy object. *)
Fixpoint Wait_seq (p : RetryParameters) (calls : list (option ctx_err * Z))
    : RetryParameters :=
  match calls with
  | [] => p
  | (done, pos) :: rest => Wait_seq (wait_params (Wait p done pos)) rest
  end.

(** A policy as a caller of the package can build it: the unexported
    fields hold their zero values. *)
Definition fresh (p : RetryParameters) : Prop :=
  currentWait p = 0 /\ retryCtr p = 0 /\ prevPos p = 0.

(** [waited p0 hist p]: [p] is [p0] after calls of [Wait] that passed the
    budget check, [hist] being the positions given to them, oldest first. *)
Inductive waited (p0 : RetryParameters) : list Z -> RetryParameters -> Prop :=
| waited_nil : waited p0 [] p0
| waited_snoc hist p done pos :
    waited p0 hist p ->
    retryCtr p < MaxRetries p ->
    waited p0 (hist ++ [pos]) (wait_params (Wait p done pos)).

(** ** HTTP, as the driver sees it *)

Definition rangeHeader : string := "Range".
Definition contentRangeHeader : string := "Content-Range".

Definition StatusOK : Z := 200.
Definition StatusPartialContent : Z := 206.
Definition StatusBadGateway : Z := 502.

(** A header set, keyed by canonical header names. *)
Record Request := mkRequest {
  req_url : string;
  req_header : gmap string string
}.

(** A response body: the bytes its [Read] calls deliver, and how the stream
    ends, [None] for [io.EOF] and [Some e] for a read error. *)
Record Body := mkBody {
  delivered : bytes;
  ending : option error
}.

Record Response := mkResponse {
  StatusCode : Z;
  ContentLength : Z;
  Header : gmap string string;
  resp_Body : Body
}.

(** An [*http.Client]: what [Do] returns for the [n]-th request of the
    session (counted from 0). *)
Definition Client : Type := nat -> Request -> error + Response.

(** ** Sinks, hashers and the byte counter *)

(** A [hash.Hash] object: the bytes written to it so far and its
    algorithm, [Sum(nil)] being the digest of those bytes. *)
Record Hasher := mkHasher {
  absorbed : bytes;
  digest : bytes -> bytes
}.

Definition hash_Write (bs : bytes) (h : Hasher) : Hasher :=
  {| absorbed := absorbed h ++ bs; digest := digest h |}.

Definition hash_Sum (h : Hasher) : bytes := digest h (absorbed h).

#[global] Instance Hasher_inhabited : Inhabited Hasher :=
  populate {| absorbed := []; digest := fun bs => bs |}.

(** What happens during a session, in order. *)
Inductive event :=
| EvRequest (req : Request)
| EvTimer (d : Z)
| EvFinal (i : nat).

(** The objects a session acts on: the destination sink (the bytes written
    to it), the hasher objects by address, and the log of events. *)
Record world := mkWorld {
  dest : bytes;
  heap : gmap nat Hasher;
  trace : list event
}.

Definition log (e : event) (w : world) : world :=
  {| dest := dest w; heap := heap w; trace := trace w ++ [e] |}.

Definition is_request (e : event) : bool :=
  match e with EvRequest _ => true | _ => false end.
Definition is_timer (e : event) : bool :=
  match e with EvTimer _ => true | _ => false end.

Definition requests_sent (w : world) : nat :=
  length (filter (fun e => is_request e = true) (trace w)).
Definition timers_armed (w : world) : nat :=
  length (filter (fun e => is_timer e = true) (trace w)).

(** The writers of an [io.MultiWriter]: [io.MultiWriter] flattens nested
    multi-writers, so a chain is the list of its sinks, the destination or a
    hasher (by address). *)
Inductive sink := Dest | HashSink (h : nat).

#[global] Instance sink_eq_dec : EqDecision sink.
Proof. solve_decision. Defined.

(** One [Write] on a sink.  The destination and the hashers take every
    write in full (as [io.Discard], a buffer and the [hash.Hash]
    implementations do). *)
Definition sink_write (bs : bytes) (w : world) (s : sink) : world :=
  match s with
  | Dest => {| dest := dest w ++ bs; heap := heap w; trace := trace w |}
  | HashSink h =>
      {| dest := dest w; heap := alter (hash_Write bs) h (heap w);
         trace := trace w |}
  end.

(** [multiWriter.Write]: the same buffer to every writer, in order. *)
Definition multi_write (ws : list sink) (bs : bytes) (w : world) : world :=
  foldl (sink_write bs) w ws.

Definition io_MultiWriter (ws : list sink) (h : nat) : list sink :=
  ws ++ [HashSink h].

(** [datacounter.WriterCounter]. *)
Record WriterCounter := mkWriterCounter {
  wc_writer : list sink;
  wc_count : Z
}.

Definition NewWriterCounter (ws : list sink) : WriterCounter :=
  {| wc_writer := ws; wc_count := 0 |}.

Definition Count (c : WriterCounter) : Z := wc_count c.

Definition counter_write (c : WriterCounter) (bs : bytes) (w : world)
    : WriterCounter * world :=
  ({| wc_writer := wc_writer c;
      wc_count := uint64_wrap (wc_count c + Z.of_nat (length bs)) |},
   multi_write (wc_writer c) bs w).

(** ** The downloader *)

(** A finalization check reads the hashers when it is run. *)
Definition FinalFunc : Type := gmap nat Hasher -> option error.

(** A progress callback, by the line it reports for
    [(currentLength, totalLength)]. *)
Definition ProgressFunc : Type := Z -> Z -> string.

(** [writer] is set by [DownloadURL] after the options have run; until then
    it holds the zero counter.  [headers] lists the entries of the Go map in
    the order the [range] loop visits them. *)
Record downloader := mkDownloader {
  url : string;
  writer : WriterCounter;
  httpClient : Client;
  retryParameters : RetryParameters;
  tmpWriter : list sink;
  finalFuncs : list FinalFunc;
  headers : list (string * string);
  progressFunc : option ProgressFunc;
  progressInterval : Z;
  contentLength : Z
}.

Definition set_writer (v : WriterCounter) (d : downloader) : downloader :=
  mkDownloader (url d) v (httpClient d) (retryParameters d) (tmpWriter d)
    (finalFuncs d) (headers d) (progressFunc d) (progressInterval d)
    (contentLength d).

Definition set_httpClient (v : Client) (d : downloader) : downloader :=
  mkDownloader (url d) (writer d) v (retryParameters d) (tmpWriter d)
    (finalFuncs d) (headers d) (progressFunc d) (progressInterval d)
    (contentLength d).

Definition set_retryParameters (v : RetryParameters) (d : downloader)
    : downloader :=
  mkDownloader (url d) (writer d) (httpClient d) v (tmpWriter d)
    (finalFuncs d) (headers d) (progressFunc d) (progressInterval d)
    (contentLength d).

Definition set_tmpWriter (v : list sink) (d : downloader) : downloader :=
  mkDownloader (url d) (writer d) (httpClient d) (retryParameters d) v
    (finalFuncs d) (headers d) (progressFunc d) (progressInterval d)
    (contentLength d).

Definition set_finalFuncs (v : list FinalFunc) (d : downloader) : downloader :=
  mkDownloader (url d) (writer d) (httpClient d) (retryParameters d)
    (tmpWriter d) v (headers d) (progressFunc d) (progressInterval d)
    (contentLength d).

Definition set_headers (v : list (string * string)) (d : downloader)
    : downloader :=
  mkDownloader (url d) (writer d) (httpClient d) (retryParameters d)
    (tmpWriter d) (finalFuncs d) v (progressFunc d) (progressInterval d)
    (contentLength d).

Definition set_progress (f : option ProgressFunc) (i : Z) (d : downloader)
    : downloader :=
  mkDownloader (url d) (writer d) (httpClient d) (retryParameters d)
    (tmpWriter d) (finalFuncs d) (headers d) f i (contentLength d).

Definition set_contentLength (v : Z) (d : downloader) : downloader :=
  mkDownloader (url d) (writer d) (httpClient d) (retryParameters d)
    (tmpWriter d) (finalFuncs d) (headers d) (progressFunc d)
    (progressInterval d) v.

(** The closure [WithExpectedHash] appends to [finalFuncs]. *)
Definition expectedHashCheck (hasher : nat) (expected : bytes) : FinalFunc :=
  fun hp =>
    let givenHash := hash_Sum (hp !!! hasher) in
    if negb (bool_decide (givenHash = expected)) then
      Some (ErrHashMismatch expected givenHash)
    else None.

(** The option constructors.  A [DownloadOpt] is a closure over the
    arguments of its constructor; a caller outside the package has no other
    way to make one, [downloader] being unexported.  A hasher is given by
    its address in the heap. *)
Inductive DownloadOpt :=
| WithHTTPClient (client : Client)
| WithHasher (hasher : nat)
| WithExpectedHash (hasher : nat) (expected : bytes)
| WithHeaders (hdrs : list (string * string))
| WithProgressFunc (progress : ProgressFunc) (interval : Z)
| WithRetryParameters (params : RetryParameters).

(** Calling the closure on [d]. *)
Definition apply_opt (opt : DownloadOpt) (d : downloader) : downloader :=
  match opt with
  | WithHTTPClient client => set_httpClient client d
  | WithHasher hasher =>
      set_tmpWriter (io_MultiWriter (tmpWriter d) hasher) d
  | WithExpectedHash hasher expected =>
      let d1 := set_tmpWriter (io_MultiWriter (tmpWriter d) hasher) d in
      set_finalFuncs (finalFuncs d1 ++ [expectedHashCheck hasher expected]) d1
  | WithHeaders hdrs => set_headers hdrs d
  | WithProgressFunc progress interval =>
      set_progress (Some progress) interval d
  | WithRetryParameters params => set_retryParameters params d
  end.

(** The hashers the options attach to the chain, in order. *)
Definition attached (opt : option DownloadOpt) : list nat :=
  match opt with
  | Some (WithHasher h) => [h]
  | Some (WithExpectedHash h _) => [h]
  | _ => []
  end.

Definition attached_hashers (opts : list (option DownloadOpt)) : list nat :=
  concat (map attached opts).

(** The finalization checks an option registers. *)
Definition registered (opt : option DownloadOpt) : list FinalFunc :=
  match opt with
  | Some (WithExpectedHash h expected) => [expectedHashCheck h expected]
  | _ => []
  end.

(** The caller's context: whether it is done before the timer of the
    [n]-th armed wait fires, and with which error. *)
Definition Context : Type := nat -> option ctx_err.

(** The outcome of a loop or of a session. *)
Record outcome := mkOutcome {
  out_err : option error;
  out_d : downloader;
  out_w : world
}.

(** What a call of [DownloadURL] comes to. *)
Inductive result :=
| Panicked
| OutOfFuel
| Returned (o : outcome).

Section Driver.

(** Functions of the Go standard library the driver calls, taken as
    given: [textproto.CanonicalMIMEHeaderKey] (behind [Header.Set] and
    [Header.Get]), [strings.ToLower], [fmt.Sscanf] with three [%d] verbs
    into [int64] variables, the error [http.NewRequestWithContext] returns
    for a URL, if any, and [fmt.Sprintf] of a [uint64] with one [%d] verb.
    [network] is the client [DownloadURL] builds by default. *)
Variable canon : string -> string.
Variable ToLower : string -> string.
Variable Sscanf : string -> string -> error + (Z * Z * Z).
Variable NewRequest_err : string -> option error.
Variable Sprintf : string -> Z -> string.
Variable network : Client.

Definition Header_Set (h : gmap string string) (k v : string)
    : gmap string string :=
  <[canon k := v]> h.

Definition Header_Get (h : gmap string string) (k : string) : string :=
  default "" (h !! canon k).

(** The header set of the request after the loop over [d.headers]. *)
Definition configured_header (hdrs : list (string * string))
    : gmap string string :=
  foldl (fun h kv => Header_Set h kv.1 kv.2) ∅ hdrs.

Definition runInner (d : downloader) (w : world)
    : (error + Body) * downloader * world :=
  match NewRequest_err (url d) with
  | Some err =>
      (inl (NonRetryableWrapf (Errorfw "create request: %w" [] err)), d, w)
  | None =>
    let h0 := configured_header (headers d) in
    let downloadFrom := Count (writer d) in
    let h1 := if 0 <? downloadFrom
              then Header_Set h0 rangeHeader (Sprintf "bytes=%d-" downloadFrom)
              else h0 in
    let req := {| req_url := url d; req_header := h1 |} in
    let w1 := log (EvRequest req) w in
    match httpClient d (requests_sent w) req with
    | inl err => (inl (Errorfw "do request: %w" [] err), d, w1)
    | inr resp =>
      if StatusCode resp =? StatusBadGateway then
        (inl (Errorf "bad gateway" []), d, w1)
      else if contentLength d =? 0 then
        let d1 := set_contentLength (ContentLength resp) d in
        if negb (StatusCode resp =? StatusOK) then
          (inl (NonRetryableWrapf
                  (Errorf "unexpected status code on first read: %d"
                     [StatusCode resp])), d1, w1)
        else (inr (resp_Body resp), d1, w1)
      else if negb (StatusCode resp =? StatusPartialContent) then
        (inl (NonRetryableWrapf
                (Errorf "unexpected status code on subsequent read: %d"
                   [StatusCode resp])), d, w1)
      else
        match Sscanf (ToLower (Header_Get (Header resp) contentRangeHeader))
                "bytes %d-%d/%d" with
        | inl err =>
            (inl (NonRetryableWrapf
                    (Errorfw
                       "error parsing response content-range header: %w"
                       [] err)), d, w1)
        | inr (respStart, respEnd, respTotal) =>
            if negb (uint64_wrap respStart =? downloadFrom) then
              (inl (NonRetryableWrapf
                      (Errorf
                         "unexpected response range start (expected %d, got %d)"
                         [downloadFrom; respStart])), d, w1)
            else if negb (respEnd =? int64_wrap (contentLength d - 1)) then
              (inl (NonRetryableWrapf
                      (Errorf
                         "unexpected response range end (expected %d, got %d)"
                         [int64_wrap (contentLength d - 1); respEnd])), d, w1)
            else if negb (respTotal =? contentLength d) then
              (inl (NonRetryableWrapf
                      (Errorf
                         "unexpected response range total (expected %d, got %d)"
                         [int64_wrap (contentLength d - 1); respTotal])), d, w1)
            else (inr (resp_Body resp), d, w1)
        end
    end
  end.

(** [io.Copy(d.writer, body)]: every delivered byte goes through the
    counter; the result is the error that ended the stream, [nil] at EOF. *)
Definition io_Copy (d : downloader) (w : world) (body : Body)
    : option error * downloader * world :=
  let '(c, w1) := counter_write (writer d) (delivered body) w in
  (ending body, set_writer c d, w1).

(** One iteration of the [for] loop of [run]: [inl] when it leaves the loop
    (by [return err], or by [break] with no error), [inr] when it goes
    round again. *)
Definition loop_body (ctx : Context) (d : downloader) (w : world)
    : outcome + downloader * world :=
  match runInner d w with
  | (inl err, d1, w1) => inl (mkOutcome (Some err) d1 w1)
  | (inr body, d1, w1) =>
    match io_Copy d1 w1 body with
    | (None, d2, w2) => inl (mkOutcome None d2 w2)
    | (Some _, d2, w2) =>
      let r := Wait (retryParameters d2) (ctx (timers_armed w2))
                 (Count (writer d2)) in
      let d3 := set_retryParameters (wait_params r) d2 in
      let w3 := match wait_timer r with
                | Some t => log (EvTimer t) w2
                | None => w2
                end in
      match wait_err r with
      | Some err => inl (mkOutcome (Some err) d3 w3)
      | None => inr (d3, w3)
      end
    end
  end.

(** The loop states a session goes through: [loop_reaches ctx d w d1 w1]
    when the loop entered at [(d, w)] comes to the top of an iteration at
    [(d1, w1)]. *)
Inductive loop_reaches (ctx : Context)
    : downloader -> world -> downloader -> world -> Prop :=
| loop_here d w : loop_reaches ctx d w d w
| loop_round d w d1 w1 d2 w2 :
    loop_body ctx d w = inr (d1, w1) ->
    loop_reaches ctx d1 w1 d2 w2 ->
    loop_reaches ctx d w d2 w2.

(** The loop.  One unit of fuel is one iteration; [None] is fuel run
    out. *)
Fixpoint run_loop (fuel : nat) (ctx : Context) (d : downloader) (w : world)
    : option outcome :=
  match fuel with
  | O => None
  | S fuel' =>
    match loop_body ctx d w with
    | inl o => Some o
    | inr (d1, w1) => run_loop fuel' ctx d1 w1
    end
  end.

(** The loop over [d.finalFuncs]; [i] is the index of the head of [fs]. *)
Fixpoint run_finals (fs : list FinalFunc) (i : nat) (w : world)
    : option error * world :=
  match fs with
  | [] => (None, w)
  | finalFunc :: rest =>
      let w1 := log (EvFinal i) w in
      match finalFunc (heap w1) with
      | Some err => (Some err, w1)
      | None => run_finals rest (S i) w1
      end
  end.

(** Iterations the loop can need: every iteration but the last ends in a
    [Wait] that raises [retryCtr]. *)
Definition loop_fuel (p : RetryParameters) : nat :=
  S (Z.to_nat (MaxRetries p - retryCtr p)).

(** [run].  The progress goroutine only reads the counter and the content
    length and is left out. *)
Definition run (ctx : Context) (d : downloader) (w : world) : option outcome :=
  match run_loop (loop_fuel (retryParameters d)) ctx d w with
  | None => None
  | Some o =>
    match out_err o with
    | Some err => Some o
    | None =>
        let '(r, w1) := run_finals (finalFuncs (out_d o)) 0 (out_w o) in
        Some (mkOutcome r (out_d o) w1)
    end
  end.

(** A [DownloadOpt] value of the variadic list is [None] when it is [nil];
    calling a [nil] func value panics. *)
Definition call_opt (opt : option DownloadOpt) (d : downloader)
    : option downloader :=
  match opt with
  | None => None
  | Some f => Some (apply_opt f d)
  end.

(** The loop over [opts]; [None] is a panic. *)
Fixpoint apply_opts (opts : list (option DownloadOpt)) (d : downloader)
    : option downloader :=
  match opts with
  | [] => Some d
  | opt :: rest =>
      if bool_decide (opt = None) then apply_opts rest d
      else match call_opt opt d with
           | None => None
           | Some d1 => apply_opts rest d1
           end
  end.

Definition new_downloader (u : string) : downloader :=
  {| url := u;
     writer := {| wc_writer := []; wc_count := 0 |};
     httpClient := network;
     retryParameters := DefaultRetryParameters;
     tmpWriter := [Dest];
     finalFuncs := [];
     headers := [];
     progressFunc := None;
     progressInterval := 0;
     contentLength := 0 |}.

(** The downloader [DownloadURL] hands to [run]. *)
Definition configure (u : string) (opts : list (option DownloadOpt))
    : option downloader :=
  d ← apply_opts opts (new_downloader u);
  Some (set_writer (NewWriterCounter (tmpWriter d)) d).

(** [DownloadURL].  The [writer] argument is the destination sink of the
    world [w]. *)
Definition DownloadURL (ctx : Context) (u : string)
    (opts : list (option DownloadOpt)) (w : world) : result :=
  match configure u opts with
  | None => Panicked
  | Some d =>
      match run ctx d w with
      | None => OutOfFuel
      | Some o => Returned o
      end
  end.

(** The request [runInner] builds for [d]: the configured headers, and the
    [Range] header when bytes have been committed. *)
Definition request_of (d : downloader) : Request :=
  let h0 := configured_header (headers d) in
  {| req_url := url d;
     req_header :=
       if 0 <? Count (writer d)
       then Header_Set h0 rangeHeader (Sprintf "bytes=%d-" (Count (writer d)))
       else h0 |}.

(** The validation [runInner] makes of a 206 response, on its own. *)
Definition checked_range (d : downloader) (resp : Response)
    : error + Body :=
  match Sscanf (ToLower (Header_Get (Header resp) contentRangeHeader))
          "bytes %d-%d/%d" with
  | inl err =>
      inl (NonRetryableWrapf
             (Errorfw "error parsing response content-range header: %w"
                [] err))
  | inr (respStart, respEnd, respTotal) =>
      if negb (uint64_wrap respStart =? Count (writer d)) then
        inl (NonRetryableWrapf
               (Errorf "unexpected response range start (expected %d, got %d)"
                  [Count (writer d); respStart]))
      else if negb (respEnd =? int64_wrap (contentLength d - 1)) then
        inl (NonRetryableWrapf
               (Errorf "unexpected response range end (expected %d, got %d)"
                  [int64_wrap (contentLength d - 1); respEnd]))
      else if negb (respTotal =? contentLength d) then
        inl (NonRetryableWrapf
               (Errorf "unexpected response range total (expected %d, got %d)"
                  [int64_wrap (contentLength d - 1); respTotal]))
      else inr (resp_Body resp)
  end.

(** ** A server that serves one resource

    [serves data from body]: the body delivers the bytes of [data] from
    offset [from] on, all of them if it ends in EOF, and a prefix of them
    if it is cut by an error. *)
Definition serves (data : bytes) (from : Z) (body : Body) : Prop :=
  delivered body `prefix_of` drop (Z.to_nat from) data
  /\ (ending body = None -> delivered body = drop (Z.to_nat from) data).

(** A response that tells the truth about [data]: a 200 declares the length
    of [data] (or none, [-1]) and carries [data] from the start; a 206
    whose [Content-Range] reads [bytes s-e/t] has [t] the length of [data]
    and carries [data] from offset [s].  Nothing is asked of other
    statuses, and nothing relates the response to the request. *)
Definition honest_response (data : bytes) (resp : Response) : Prop :=
  (StatusCode resp = StatusOK ->
     (ContentLength resp = Z.of_nat (length data) \/ ContentLength resp = -1)
     /\ serves data 0 (resp_Body resp))
  /\ (StatusCode resp = StatusPartialContent ->
       forall s e t : Z,
         Sscanf (ToLower (Header_Get (Header resp) contentRangeHeader))
           "bytes %d-%d/%d" = inr (s, e, t) ->
         0 <= s <= Z.of_nat (length data)
         /\ t = Z.of_nat (length data)
         /\ serves data s (resp_Body resp)).

Definition honest_client (data : bytes) (client : Client) : Prop :=
  forall (n : nat) (req : Request) (resp : Response),
    client n req = inr resp -> honest_response data resp.

(** ** A server that honours range requests

    [cooperative data m client]: [client] answers every request; a request
    without a [Range] header with a 200 that declares the length of [data]
    and carries [data]; a request for [bytes=k-], [k] inside [data], with a
    206 whose [Content-Range] scans as [k], the last offset and the length
    of [data], carrying [data] from [k] on; and a body it cuts has
    delivered at least [m] bytes and not all that was left. *)
Definition cut_late (data : bytes) (m : nat) (from : Z) (body : Body)
    : Prop :=
  ending body <> None ->
  (m <= length (delivered body))%nat
  /\ Z.of_nat (length (delivered body)) < Z.of_nat (length data) - from.

Definition cooperative (data : bytes) (m : nat) (client : Client) : Prop :=
  forall (n : nat) (req : Request),
    exists resp,
      client n req = inr resp
      /\ match req_header req !! canon rangeHeader with
         | None =>
             StatusCode resp = StatusOK
             /\ ContentLength resp = Z.of_nat (length data)
             /\ serves data 0 (resp_Body resp)
             /\ cut_late data m 0 (resp_Body resp)
         | Some v =>
             forall k : Z,
               0 < k < Z.of_nat (length data) ->
               v = Sprintf "bytes=%d-" k ->
               StatusCode resp = StatusPartialContent
               /\ Sscanf
                    (ToLower (Header_Get (Header resp) contentRangeHeader))
                    "bytes %d-%d/%d"
                  = inr (k, Z.of_nat (length data) - 1,
                         Z.of_nat (length data))
               /\ serves data k (resp_Body resp)
               /\ cut_late data m k (resp_Body resp)
         end.

End Driver.

(** ** A test environment

    Executable stand-ins for the library functions, enough to run the
    driver on concrete sessions: header names are taken as already
    canonical, [%d] prints and reads decimal numbers. *)
Module TestEnv.

Definition canon (s : string) : string := s.

Definition lower_ascii (c : ascii) : ascii :=
  let n := nat_of_ascii c in
  if (65 <=? n)%nat && (n <=? 90)%nat then ascii_of_nat (n + 32) else c.

Fixpoint ToLower (s : string) : string :=
  match s with
  | EmptyString => EmptyString
  | String c r => String (lower_ascii c) (ToLower r)
  end.

Definition digit_of (c : ascii) : option Z :=
  let n := Z.of_nat (nat_of_ascii c) in
  if (48 <=? n) && (n <=? 57) then Some (n - 48) else None.

Fixpoint read_digits (acc : Z) (s : string) : Z * string :=
  match s with
  | EmptyString => (acc, s)
  | String c r =>
      match digit_of c with
      | Some v => read_digits (10 * acc + v) r
      | None => (acc, s)
      end
  end.

(** An unsigned decimal number of at least one digit. *)
Definition read_int (s : string) : option (Z * string) :=
  match s with
  | EmptyString => None
  | String c _ =>
      match digit_of c with
      | Some _ => Some (read_digits 0 s)
      | None => None
      end
  end.

Fixpoint expect (pre s : string) : option string :=
  match pre, s with
  | EmptyString, _ => Some s
  | String a pre', String b s' =>
      if bool_decide (a = b) then expect pre' s' else None
  | String _ _, EmptyString => None
  end.

Definition scan3 (s : string) : option (Z * Z * Z) :=
  s1 ← expect "bytes " s;
  '(a, s2) ← read_int s1;
  s3 ← expect "-" s2;
  '(b, s4) ← read_int s3;
  s5 ← expect "/" s4;
  '(c, _) ← read_int s5;
  Some (a, b, c).

Definition fits_int64 (z : Z) : bool := (- 2 ^ 63 <=? z) && (z <? 2 ^ 63).

Definition Sscanf (s format : string) : error + (Z * Z * Z) :=
  match scan3 s with
  | Some (a, b, c) =>
      if fits_int64 a && fits_int64 b && fits_int64 c then inr (a, b, c)
      else inl (ErrLibrary "value out of range")
  | None => inl (ErrLibrary "input does not match format")
  end.

Definition NewRequest_err (u : string) : option error :=
  if bool_decide (u = "") then Some (ErrLibrary "empty url") else None.

Definition digit_char (d : Z) : ascii := ascii_of_nat (Z.to_nat (48 + d)).

Fixpoint print_digits (fuel : nat) (n : Z) (acc : string) : string :=
  match fuel with
  | O => acc
  | S fuel' =>
      let acc' := String (digit_char (n mod 10)) acc in
      if n / 10 =? 0 then acc' else print_digits fuel' (n / 10) acc'
  end.

Definition print_uint (n : Z) : string := print_digits 20 n "".

(** The first [%d] of the format replaced by the number. *)
Fixpoint Sprintf (format : string) (n : Z) : string :=
  match format with
  | String "%" (String "d" r) => print_uint n +:+ r
  | String c r => String c (Sprintf r n)
  | EmptyString => EmptyString
  end.

(** A client that answers the [n]-th request with the [n]-th entry of a
    script, and with a transport error past its end. *)
Definition scripted (script : list (error + Response)) : Client :=
  fun n _ => default (inl (ErrLibrary "connection refused")) (script !! n).

Definition no_cancel : Context := fun _ => None.

Definition empty_world : world := {| dest := []; heap := ∅; trace := [] |}.

(** A five-byte resource, served in two pieces: the first answer is cut
    after two bytes, the resume answer carries the rest. *)
Definition data : bytes := [x01; x02; x03; x04; x05].

Definition cut : error := ErrLibrary "unexpected EOF".

Definition first_answer : Response :=
  {| StatusCode := StatusOK; ContentLength := 5; Header := ∅;
     resp_Body := {| delivered := [x01; x02]; ending := Some cut |} |}.

Definition resume_answer : Response :=
  {| StatusCode := StatusPartialContent; ContentLength := 3;
     Header := {[ "Content-Range" := "bytes 2-4/5" ]};
     resp_Body := {| delivered := [x03; x04; x05]; ending := None |} |}.

Definition whole_answer : Response :=
  {| StatusCode := StatusOK; ContentLength := 5; Header := ∅;
     resp_Body := {| delivered := data; ending := None |} |}.

Definition not_found : Response :=
  {| StatusCode := 404; ContentLength := 9; Header := ∅;
     resp_Body := {| delivered := []; ending := None |} |}.

Definition bad_gateway : Response :=
  {| StatusCode := StatusBadGateway; ContentLength := 17; Header := ∅;
     resp_Body := {| delivered := []; ending := None |} |}.

Definition script : list (error + Response) :=
  [inr first_answer; inr resume_answer].

(** A hasher whose digest is the input itself, at address 7. *)
Definition plain_hasher : Hasher :=
  {| absorbed := []; digest := fun bs => bs |}.

Definition hashing_world : world :=
  {| dest := []; heap := {[ 7%nat := plain_hasher ]}; trace := [] |}.

Definition file_url : string := "http://host/file".

(** The downloader of a session that expects the empty digest of a
    resource served whole. *)
Definition expecting_nothing : downloader :=
  let d := apply_opt (WithExpectedHash 7 [])
             (new_downloader (fun _ _ => inr whole_answer) file_url) in
  set_writer (NewWriterCounter (tmpWriter d)) d.

(** A downloader in mid-session: two bytes committed, content length 5
    recorded, talking to [client]. *)
Definition resuming (client : Client) : downloader :=
  set_contentLength 5
    (set_writer {| wc_writer := [Dest]; wc_count := 2 |}
       (new_downloader client file_url)).


(** A server that cuts every body after one byte. *)
Definition dribble : list (error + Response) :=
  [inr {| StatusCode := StatusOK; ContentLength := 5; Header := ∅;
          resp_Body := {| delivered := [x01]; ending := Some cut |} |};
   inr {| StatusCode := StatusPartialContent; ContentLength := 4;
          Header := {[ "Content-Range" := "bytes 1-4/5" ]};
          resp_Body := {| delivered := [x02]; ending := Some cut |} |};
   inr {| StatusCode := StatusPartialContent; ContentLength := 3;
          Header := {[ "Content-Range" := "bytes 2-4/5" ]};
          resp_Body := {| delivered := [x03]; ending := Some cut |} |};
   inr {| StatusCode := StatusPartialContent; ContentLength := 2;
          Header := {[ "Content-Range" := "bytes 3-4/5" ]};
          resp_Body := {| delivered := [x04; x05]; ending := None |} |}].

Definition two_retries : RetryParameters :=
  {| MaxRetries := 2; BaseWait := 250 * millisecond; WaitMultiplier := 2;
     currentWait := 0; retryCtr := 0; prevPos := 0 |}.

(** The header values of the requests and the timers of a trace. *)
Definition summary (e : event) : string + Z + nat :=
  match e with
  | EvRequest req => inl (inl (default "" (req_header req !! "Range")))
  | EvTimer t => inl (inr t)
  | EvFinal i => inr i
  end.


Definition runInner := runInner canon ToLower Sscanf NewRequest_err Sprintf.
Definition loop_body :=
  loop_body canon ToLower Sscanf NewRequest_err Sprintf.
Definition run_loop := run_loop canon ToLower Sscanf NewRequest_err Sprintf.
Definition run := run canon ToLower Sscanf NewRequest_err Sprintf.
Definition DownloadURL :=
  DownloadURL canon ToLower Sscanf NewRequest_err Sprintf.

End TestEnv.

(** ** Session states *)

(** How many times [x] occurs in [l]. *)
Definition occurrences `{EqDecision A} (x : A) (l : list A) : nat :=
  length (filter (fun y => y = x) l).

(** The bytes [n] writes of [bs] add up to. *)
Definition written (n : nat) (bs : bytes) : bytes := mjoin (replicate n bs).

(** A client whose bodies fit the declared length where it is zero: a
    response of [ContentLength] 0 delivers no byte (the contract of
    [http.Response.ContentLength]). *)
Definition bodies_fit_length (client : Client) : Prop :=
  forall (n : nat) (req : Request) (resp : Response),
    client n req = inr resp ->
    ContentLength resp = 0 -> delivered (resp_Body resp) = [].

(** Bytes have been committed only once a content length is recorded. *)
Definition length_recorded (d : downloader) : Prop :=
  0 <= Count (writer d) /\ (0 < Count (writer d) -> contentLength d <> 0).

(** The session has committed the first [k] bytes of [data]: they follow
    [dest0] in the destination, the hasher at [h] has taken them in after
    its state [h0], and the counter reads [k]. *)
Definition committed (data dest0 : bytes) (h : nat) (h0 : Hasher) (k : nat)
    (d : downloader) (w : world) : Prop :=
  (k <= length data)%nat
  /\ Count (writer d) = Z.of_nat k
  /\ dest w = dest0 ++ take k data
  /\ heap w !! h = Some (hash_Write (take k data) h0)
  /\ (contentLength d = 0 -> k = 0%nat).

(** The chain writes once to the destination and once to the hasher at
    [h]. *)
Definition writes_once (h : nat) (ws : list sink) : Prop :=
  occurrences Dest ws = 1%nat /\ occurrences (HashSink h) ws = 1%nat.

(** [fed ws extra d w d1 w1]: from [(d, w)] to [(d1, w1)] the bytes [extra]
    have gone through the counter over the chain [ws]: the counter has
    counted them, the destination has them appended if the chain writes to
    it once, a hasher the chain writes to once has taken them in, and a
    hasher the chain does not write to is as it was. *)
Definition fed (ws : list sink) (extra : bytes) (d : downloader) (w : world)
    (d1 : downloader) (w1 : world) : Prop :=
  wc_writer (writer d1) = wc_writer (writer d)
  /\ Count (writer d1)
     = uint64_wrap (Count (writer d) + Z.of_nat (length extra))
  /\ (occurrences Dest ws = 1%nat -> dest w1 = dest w ++ extra)
  /\ (forall h : nat,
        occurrences (HashSink h) ws = 1%nat ->
        heap w1 !! h = hash_Write extra <$> heap w !! h)
  /\ (forall h : nat,
        occurrences (HashSink h) ws = 0%nat -> heap w1 !! h = heap w !! h).

(** The errors the transfer loop of [run] can end in: a non-retryable
    error, the wrapped error of [httpClient.Do], the bad-gateway error, the
    spent budget, or the context's error. *)
Definition transfer_error (e : error) : Prop :=
  is_non_retryable e = true
  \/ (exists err, e = Errorfw "do request: %w" [] err)
  \/ e = Errorf "bad gateway" []
  \/ e = ErrRetryParametersExceeded
  \/ exists c, e = ErrContext c.

(** ** errors.go: messages and unwrapping *)

Definition hex_digit (n : N) : ascii :=
  ascii_of_N (if (n <? 10)%N then 48 + n else 87 + n)%N.

(** The [%x] verb on a byte slice: two lower-case digits per byte. *)
Definition hex_of_byte (b : byte) : string :=
  let n := Byte.to_N b in
  String (hex_digit (n / 16)%N) (String (hex_digit (n mod 16)%N) "").

Fixpoint hex (bs : bytes) : string :=
  match bs with
  | [] => ""
  | b :: rest => hex_of_byte b +:+ hex rest
  end.

Section Messages.

(** [fmt.Sprintf] of a format with the integer arguments of its [%d]
    verbs and, for a final [%w], the message of the wrapped error: the
    message of a [fmt.Errorf] error, taken as given. *)
Variable render : string -> list Z -> option string -> string.

(** The [Error()] method of each error value.  The messages of the two
    context errors are those of package [context]. *)
Fixpoint Error (e : error) : string :=
  match e with
  | ErrRetryParametersExceeded => "retry parameters exceeded"
  | ErrHashMismatch ExpectedHash GivenHash =>
      "hash mismatch: expected " +:+ hex ExpectedHash +:+ ", got "
      +:+ hex GivenHash
  | ErrNonRetryable inner => Error inner
  | Errorf format args => render format args None
  | Errorfw format args wrapped => render format args (Some (Error wrapped))
  | ErrContext Canceled => "context canceled"
  | ErrContext DeadlineExceeded => "context deadline exceeded"
  | ErrLibrary msg => msg
  end.

End Messages.

(** [Unwrap]: the method of [ErrNonRetryable], and the one [fmt.Errorf]
    gives an error made with [%w]. *)
Definition Unwrap (e : error) : option error :=
  match e with
  | ErrNonRetryable inner => Some inner
  | Errorfw _ _ wrapped => Some wrapped
  | _ => None
  end.

(** The chain [errors.Is] and [errors.As] walk: the error, what it
    unwraps to, and so on. *)
Fixpoint chain (e : error) : list error :=
  e :: match e with
       | ErrNonRetryable inner => chain inner
       | Errorfw _ _ wrapped => chain wrapped
       | _ => []
       end.

(** ** cmd/dl-pipe: the command line *)

(** The line feed that ends a message. *)
Definition newline : string := String (ascii_of_nat 10) EmptyString.

(** [headerFlag.Set] and [headerFlag.String]. *)
Definition headerFlag_Set (h : list string) (value : string) : list string :=
  h ++ [value].

Fixpoint strings_Join (elems : list string) (sep : string) : string :=
  match elems with
  | [] => ""
  | [x] => x
  | x :: rest => x +:+ sep +:+ strings_Join rest sep
  end.

Definition headerFlag_String (h : list string) : string :=
  strings_Join h ", ".

(** [strings.SplitN(s, ":", 2)]: [s] cut at its first colon, or [s] alone
    when it has none. *)
Fixpoint cut_colon (s : string) : option (string * string) :=
  match s with
  | EmptyString => None
  | String c rest =>
      if Ascii.eqb c ":" then Some (EmptyString, rest)
      else match cut_colon rest with
           | Some (a, b) => Some (String c a, b)
           | None => None
           end
  end.

Definition SplitN2 (s : string) : list string :=
  match cut_colon s with
  | Some (a, b) => [a; b]
  | None => [s]
  end.

(** [hex.DecodeString]: pairs of hexadecimal digits of either case;
    [None] for the error it returns on an odd length or another
    character. *)
Definition hex_val (c : ascii) : option N :=
  let n := N_of_ascii c in
  if (48 <=? n)%N && (n <=? 57)%N then Some (n - 48)%N
  else if (97 <=? n)%N && (n <=? 102)%N then Some (n - 87)%N
  else if (65 <=? n)%N && (n <=? 70)%N then Some (n - 55)%N
  else None.

Fixpoint hex_DecodeString (s : string) : option bytes :=
  match s with
  | EmptyString => Some []
  | String a (String b rest) =>
      match hex_val a, hex_val b, hex_DecodeString rest with
      | Some hi, Some lo, Some bs =>
          Some (byte_of_ascii (ascii_of_N (16 * hi + lo)) :: bs)
      | _, _, _ => None
      end
  | String _ EmptyString => None
  end.

(** What a step of [main] comes to: [os.Exit] with a code after writing to
    stderr, or a value to go on with. *)
Inductive cli (A : Type) :=
| Exit (code : Z) (stderr : string)
| Go (a : A).
Arguments Exit {A} code stderr.
Arguments Go {A} a.

(** How the process ends: its exit code, what it wrote to stderr, and the
    world it leaves (stdout is the destination). *)
Record process := mkProcess {
  exit_code : Z;
  stderr : string;
  final : world
}.

(** [progressFuncInterval = time.Second * 10]. *)
Definition progressFuncInterval : Z := 1000 * millisecond * 10.

(** The loop of [main] over the [-header] flags, filling [headerMap]. *)
Fixpoint parse_headers (headers : list string) (headerMap : gmap string string)
    : cli (gmap string string) :=
  match headers with
  | [] => Go headerMap
  | header :: rest =>
      let parts := SplitN2 header in
      if negb (length parts =? 2)%nat then
        Exit 1 ("Invalid header: " +:+ header +:+ newline)
      else
        parse_headers rest
          (<[nth 0 parts "" := nth 1 parts ""]> headerMap)
  end.

Section Cli.

Variable canon : string -> string.
Variable ToLower : string -> string.
Variable Sscanf : string -> string -> error + (Z * Z * Z).
Variable NewRequest_err : string -> option error.
Variable Sprintf : string -> Z -> string.
Variable network : Client.
Variable render : string -> list Z -> option string -> string.

(** The digests of [crypto/sha1], [crypto/sha256], [crypto/sha512] and
    [crypto/md5], and the callback [getProgressFunc] returns (its rendering
    of sizes and rates is outside the model). *)
Variable sha1 sha256 sha512 md5 : bytes -> bytes.
Variable progressFunc_line : ProgressFunc.

(** The [switch] of [getHashOpt] on the algorithm name. *)
Definition hasher_of (name : string) : option (bytes -> bytes) :=
  if bool_decide (name = "sha1") then Some sha1
  else if bool_decide (name = "sha256") then Some sha256
  else if bool_decide (name = "sha512") then Some sha512
  else if bool_decide (name = "md5") then Some md5
  else None.

(** [getHashOpt].  [New()] puts a fresh hasher at an address the heap does
    not use. *)
Definition getHashOpt (hashArg : string) (hp : gmap nat Hasher)
    : cli (option DownloadOpt) * gmap nat Hasher :=
  if bool_decide (hashArg = "") then (Go None, hp)
  else
    let parts := SplitN2 hashArg in
    if negb (length parts =? 2)%nat then
      (Exit 1 ("Invalid hash: " +:+ hashArg +:+ newline), hp)
    else
      match hasher_of (nth 0 parts "") with
      | None =>
          (Exit 1 ("Unsupported hash algorithm: " +:+ nth 0 parts ""
                   +:+ newline), hp)
      | Some alg =>
          let hasher := stdpp.base.fresh (dom hp) in
          let hp1 := <[hasher := {| absorbed := []; digest := alg |}]> hp in
          match hex_DecodeString (nth 1 parts "") with
          | None =>
              (Exit 1 ("Invalid hash: " +:+ hashArg +:+ newline), hp1)
          | Some hashBytes =>
              (Go (Some (WithExpectedHash hasher hashBytes)), hp1)
          end
      end.

Definition getProgressOpt (progress : bool) : option DownloadOpt :=
  if negb progress then None
  else Some (WithProgressFunc progressFunc_line progressFuncInterval).

(** [context.Background()] is never done. *)
Definition Background : Context := fun _ => None.

(** [main] after [flag.Parse]: [headers], [hash] and [progress] are the
    values of the flags, [url] is [flag.Arg(0)].  The entries of
    [headerMap] reach [WithHeaders] in the order of [map_to_list].  [None]
    is fuel run out in [DownloadURL]; a panic would exit with code 2. *)
Definition main (headers : list string) (hash : string) (progress : bool)
    (url : string) (w : world) : option process :=
  if bool_decide (url = "") then
    Some (mkProcess 1 "URL is required" w)
  else
    match parse_headers headers ∅ with
    | Exit code msg => Some (mkProcess code msg w)
    | Go headerMap =>
      match getHashOpt hash (heap w) with
      | (Exit code msg, hp) =>
          Some (mkProcess code msg
                  {| dest := dest w; heap := hp; trace := trace w |})
      | (Go hashOpt, hp) =>
        let w1 := {| dest := dest w; heap := hp; trace := trace w |} in
        match DownloadURL canon ToLower Sscanf NewRequest_err Sprintf network
                Background url
                [Some (WithHeaders (map_to_list headerMap)); hashOpt;
                 getProgressOpt progress] w1 with
        | OutOfFuel => None
        | Panicked => Some (mkProcess 2 "panic" w1)
        | Returned o =>
            match out_err o with
            | Some err =>
                Some (mkProcess 1
                        ("Error: " +:+ Error render err +:+ newline)
                        (out_w o))
            | None => Some (mkProcess 0 "" (out_w o))
            end
        end
      end
    end.

End Cli.

(** ** download_test.go: the writer that interrupts a response *)

(** The counters [written] and [interruptAt] of an
    [interruptibleHTTPWriter]. *)
Record interruptibleHTTPWriter := mkInterruptible {
  iw_written : Z;
  iw_interruptAt : Z
}.

(** What a call of [Write] comes to: a panic (a slice bound out of range),
    or its results, the new counters and the slice it handed to the inner
    writer. *)
Inductive write_result :=
| WritePanics
| WriteReturns (n : Z) (err : option error) (w : interruptibleHTTPWriter)
    (passed : bytes).

(** [Write].  [inner] is what [w.writer.Write] returns for the slice it is
    given. *)
Definition interruptible_Write (w : interruptibleHTTPWriter)
    (inner : bytes -> Z * option error) (buf : bytes) : write_result :=
  let written1 := int64_wrap (iw_written w + Z.of_nat (length buf)) in
  let w1 := {| iw_written := written1; iw_interruptAt := iw_interruptAt w |} in
  if (0 <? iw_interruptAt w) && (iw_interruptAt w <? written1) then
    let offset :=
      int64_wrap (Z.of_nat (length buf)
                  - int64_wrap (written1 - iw_interruptAt w)) in
    if (offset <? 0) || (Z.of_nat (length buf) <? offset) then WritePanics
    else
      let passed := take (Z.to_nat offset) buf in
      match inner passed with
      | (n, Some err) => WriteReturns n (Some err) w1 passed
      | (n, None) =>
          WriteReturns n
            (Some (Errorf "interrupt size (%d bytes) reached"
                     [iw_interruptAt w])) w1 passed
      end
  else
    let '(n, err) := inner buf in
    WriteReturns n err w1 buf.

(** An inner writer that takes every slice in full. *)
Definition taking_all (bs : bytes) : Z * option error :=
  (Z.of_nat (length bs), None).

(** A caller that writes the buffers in turn to a writer over an inner
    writer that takes everything, and stops at the first error: the bytes
    that reach the inner writer, and whether it was stopped; [None] for a
    panic. *)
Fixpoint write_stream (w : interruptibleHTTPWriter) (bufs : list bytes)
    : option (bytes * bool) :=
  match bufs with
  | [] => Some ([], false)
  | buf :: rest =>
      match interruptible_Write w taking_all buf with
      | WritePanics => None
      | WriteReturns _ (Some _) _ passed => Some (passed, true)
      | WriteReturns _ None w1 passed =>
          match write_stream w1 rest with
          | Some (more, stopped) => Some (passed ++ more, stopped)
          | None => None
          end
      end
  end.

(** ** Options that set a field *)

(** Whether [o1] sets the field that [o] sets. *)
Definition replaces (o1 o : DownloadOpt) : bool :=
  match o1, o with
  | WithHTTPClient _, WithHTTPClient _ => true
  | WithHeaders _, WithHeaders _ => true
  | WithProgressFunc _ _, WithProgressFunc _ _ => true
  | WithRetryParameters _, WithRetryParameters _ => true
  | _, _ => false
  end.

(** The field [o] sets holds what [o] sets it to (nothing is said for the
    options that attach a hasher). *)
Definition set_as (o : DownloadOpt) (d : downloader) : Prop :=
  match o with
  | WithHTTPClient client => httpClient d = client
  | WithHeaders hdrs => headers d = hdrs
  | WithProgressFunc progress interval =>
      progressFunc d = Some progress /\ progressInterval d = interval
  | WithRetryParameters params => retryParameters d = params
  | WithHasher _ | WithExpectedHash _ _ => True
  end.

(** ** The retry policy over a series of calls *)

(** The durations given to [time.After] over a sequence of calls on the
    same policy object, in order. *)
Fixpoint Wait_timers (p : RetryParameters) (calls : list (option ctx_err * Z))
    : list Z :=
  match calls with
  | [] => []
  | (done, pos) :: rest =>
      let r := Wait p done pos in
      match wait_timer r with
      | Some t => t :: Wait_timers (wait_params r) rest
      | None => Wait_timers (wait_params r) rest
      end
  end.

(** A sequence of calls none of which sees the progress that resets the
    wait period: each position is at most 1 MiB ([uint64] sum) above the
    one recorded before it, [prev] for the first, or that one is 0. *)
Fixpoint stalled (prev : Z) (calls : list (option ctx_err * Z)) : Prop :=
  match calls with
  | [] => True
  | (_, pos) :: rest =>
      (prev = 0 \/ pos <= uint64_wrap (prev + oneMB)) /\ stalled pos rest
  end.

(** * Properties *)

(** ** Machine integers *)

Lemma int64_wrap_id (z : Z) : int64_ok z -> int64_wrap z = z.
Proof.
  unfold int64_ok, int64_wrap. intros H.
  rewrite Z.mod_small by lia. lia.
Qed.

Lemma int64_wrap_ok (z : Z) : int64_ok (int64_wrap z).
Proof.
  unfold int64_ok, int64_wrap.
  pose proof (Z.mod_pos_bound (z + 2 ^ 63) (2 ^ 64) ltac:(lia)). lia.
Qed.

Lemma uint64_wrap_id (z : Z) : uint64_ok z -> uint64_wrap z = z.
Proof. unfold uint64_ok, uint64_wrap. intros H. apply Z.mod_small. lia. Qed.

(** Converting an [int64] to [uint64] gives a value below [2^63] only for
    the non-negative ones, and then the value itself. *)
Lemma uint64_of_int64_eq (s off : Z) :
  int64_ok s -> 0 <= off < 2 ^ 63 -> (uint64_wrap s = off <-> s = off).
Proof.
  unfold int64_ok, uint64_wrap. intros Hs Hoff.
  destruct (Z_lt_le_dec s 0) as [Hneg | Hpos].
  - replace (s mod 2 ^ 64) with (s + 2 ^ 64).
    + lia.
    + apply Z.mod_unique with (q := -1); lia.
  - rewrite Z.mod_small by lia. reflexivity.
Qed.

(** ** The retry policy *)

Lemma Wait_exceeded (p : RetryParameters) (done : option ctx_err) (pos : Z) :
  MaxRetries p <= retryCtr p ->
  Wait p done pos =
    {| wait_err := Some ErrRetryParametersExceeded;
       wait_timer := None; wait_params := p |}.
Proof.
  intros H. unfold Wait.
  destruct (Z.leb_spec (MaxRetries p) (retryCtr p)); [reflexivity | lia].
Qed.

Lemma Wait_armed (p : RetryParameters) (done : option ctx_err) (pos : Z) :
  retryCtr p < MaxRetries p ->
  let w := if reset_due p pos then BaseWait p else currentWait p in
  Wait p done pos =
    {| wait_err := ErrContext <$> done;
       wait_timer := Some w;
       wait_params :=
         {| MaxRetries := MaxRetries p; BaseWait := BaseWait p;
            WaitMultiplier := WaitMultiplier p;
            currentWait := int64_wrap (w * WaitMultiplier p);
            retryCtr := int64_wrap (retryCtr p + 1);
            prevPos := pos |} |}.
Proof.
  intros H. unfold Wait.
  destruct (Z.leb_spec (MaxRetries p) (retryCtr p)); [lia |].
  destruct (reset_due p pos); reflexivity.
Qed.

Lemma Wait_err_exceeded_iff (p : RetryParameters) (done : option ctx_err)
    (pos : Z) :
  wait_err (Wait p done pos) = Some ErrRetryParametersExceeded
  <-> MaxRetries p <= retryCtr p.
Proof.
  destruct (Z_le_gt_dec (MaxRetries p) (retryCtr p)) as [Hle | Hgt].
  - rewrite Wait_exceeded by assumption. simpl. tauto.
  - rewrite Wait_armed by lia. simpl. split; [| lia].
    destruct done; discriminate.
Qed.

Lemma Wait_MaxRetries (p : RetryParameters) (done : option ctx_err) (pos : Z) :
  MaxRetries (wait_params (Wait p done pos)) = MaxRetries p.
Proof.
  destruct (Z_le_gt_dec (MaxRetries p) (retryCtr p)) as [Hle | Hgt].
  - now rewrite Wait_exceeded.
  - now rewrite Wait_armed by lia.
Qed.

Lemma Wait_retryCtr_armed (p : RetryParameters) (done : option ctx_err)
    (pos : Z) :
  int64_ok (MaxRetries p) -> int64_ok (retryCtr p) ->
  retryCtr p < MaxRetries p ->
  retryCtr (wait_params (Wait p done pos)) = retryCtr p + 1.
Proof.
  intros HM Hc Hlt. rewrite Wait_armed by assumption. simpl.
  apply int64_wrap_id. unfold int64_ok in *. lia.
Qed.

Lemma Wait_keeps_budget (p : RetryParameters) (done : option ctx_err)
    (pos : Z) :
  int64_ok (MaxRetries p) -> int64_ok (retryCtr p) ->
  retryCtr p <= MaxRetries p ->
  let q := wait_params (Wait p done pos) in
  int64_ok (retryCtr q) /\ retryCtr q <= MaxRetries p.
Proof.
  intros HM Hc Hle.
  destruct (Z_le_gt_dec (MaxRetries p) (retryCtr p)) as [Hge | Hgt].
  - rewrite Wait_exceeded by assumption. simpl. auto.
  - cbv zeta. rewrite Wait_retryCtr_armed by (assumption || lia).
    unfold int64_ok in *. lia.
Qed.

Lemma waited_prevPos (p0 p : RetryParameters) (hist : list Z) :
  fresh p0 -> waited p0 hist p -> prevPos p = default 0 (last hist).
Proof.
  intros (_ & _ & Hp) Hw. induction Hw as [| hist p done pos Hw IH Hlt].
  - exact Hp.
  - rewrite Wait_armed by assumption. simpl. now rewrite last_snoc.
Qed.

Lemma reset_due_true (p : RetryParameters) (pos : Z) :
  reset_due p pos = true
  <-> currentWait p = 0
      \/ (prevPos p <> 0 /\ uint64_wrap (prevPos p + oneMB) < pos).
Proof.
  unfold reset_due.
  rewrite orb_true_iff, andb_true_iff, negb_true_iff.
  rewrite Z.eqb_eq, Z.eqb_neq, Z.ltb_lt. reflexivity.
Qed.

(** C8. A call of [Wait] that does not fail with
    [ErrRetryParametersExceeded] arms the timer with the wait period left
    by the reset step, returns [nil] or the context's error, and in both
    cases leaves the counter one higher, the wait period multiplied by
    [WaitMultiplier] (a [time.Duration] product, exact when it fits 64
    bits) and the given position recorded in [prevPos] -- whether or not
    the reset step fired. *)
Theorem Wait_advances (p : RetryParameters) (done : option ctx_err) (pos : Z) :
  int64_ok (MaxRetries p) -> int64_ok (retryCtr p) ->
  wait_err (Wait p done pos) <> Some ErrRetryParametersExceeded ->
  let q := wait_params (Wait p done pos) in
  let w := if reset_due p pos then BaseWait p else currentWait p in
  wait_err (Wait p done pos) = ErrContext <$> done
  /\ wait_timer (Wait p done pos) = Some w
  /\ retryCtr q = retryCtr p + 1
  /\ currentWait q = int64_wrap (w * WaitMultiplier p)
  /\ (int64_ok (w * WaitMultiplier p) -> currentWait q = w * WaitMultiplier p)
  /\ prevPos q = pos
  /\ MaxRetries q = MaxRetries p /\ BaseWait q = BaseWait p
  /\ WaitMultiplier q = WaitMultiplier p.
Proof.
  intros HM Hc Hne.
  assert (Hlt : retryCtr p < MaxRetries p).
  { destruct (Z_le_gt_dec (MaxRetries p) (retryCtr p)) as [Hle | Hgt]; [| lia].
    exfalso. apply Hne. now apply Wait_err_exceeded_iff. }
  cbv zeta. rewrite (Wait_armed p done pos Hlt). simpl.
  repeat split.
  - apply int64_wrap_id. unfold int64_ok in *. lia.
  - apply int64_wrap_id.
Qed.

Lemma Wait_advances_witness :
  let p := DefaultRetryParameters in
  let q := wait_params (Wait p (Some Canceled) 3000000) in
  wait_err (Wait p (Some Canceled) 3000000) = Some (ErrContext Canceled)
  /\ retryCtr q = 1 /\ currentWait q = 500 * millisecond
  /\ prevPos q = 3000000.
Proof.
  pose proof (Wait_advances DefaultRetryParameters (Some Canceled) 3000000)
    as H.
  destruct H as (He & _ & Hc & _ & Hw & Hp & _).
  - unfold int64_ok. simpl. lia.
  - unfold int64_ok. simpl. lia.
  - discriminate.
  - split; [exact He |]. split; [exact Hc |]. split; [| exact Hp].
    rewrite Hw; [reflexivity |]. unfold int64_ok.
    split; vm_compute; [discriminate | reflexivity].
Defined.

(** C7. At the maximum, [Wait] returns [ErrRetryParametersExceeded] with no
    timer armed and the policy untouched; and a counter that is not above
    [MaxRetries] stays so over every sequence of calls. *)
Theorem Wait_budget :
  (forall (p : RetryParameters) (done : option ctx_err) (pos : Z),
      MaxRetries p <= retryCtr p ->
      Wait p done pos =
        {| wait_err := Some ErrRetryParametersExceeded;
           wait_timer := None; wait_params := p |})
  /\ (forall (p : RetryParameters) (calls : list (option ctx_err * Z)),
         int64_ok (MaxRetries p) -> int64_ok (retryCtr p) ->
         retryCtr p <= MaxRetries p ->
         retryCtr (Wait_seq p calls) <= MaxRetries (Wait_seq p calls)
         /\ MaxRetries (Wait_seq p calls) = MaxRetries p).
Proof.
  split; [exact Wait_exceeded |].
  intros p calls. revert p.
  induction calls as [| [done pos] rest IH]; intros p HM Hc Hle; simpl.
  - split; [assumption | reflexivity].
  - destruct (Wait_keeps_budget p done pos HM Hc Hle) as [Hc' Hle'].
    pose proof (Wait_MaxRetries p done pos) as HM'.
    destruct (IH (wait_params (Wait p done pos))) as [H1 H2].
    + now rewrite HM'.
    + exact Hc'.
    + now rewrite HM'.
    + split; [exact H1 | now rewrite H2].
Qed.

Lemma Wait_budget_witness :
  let calls := [(None, 10); (None, 20); (Some Canceled, 30); (None, 40);
                (None, 50); (None, 60); (None, 70)] in
  let q := Wait_seq DefaultRetryParameters calls in
  retryCtr q <= MaxRetries q
  /\ Wait q None 80 =
       {| wait_err := Some ErrRetryParametersExceeded;
          wait_timer := None; wait_params := q |}.
Proof.
  cbv zeta. split.
  - apply (proj2 Wait_budget DefaultRetryParameters).
    + unfold int64_ok. simpl. lia.
    + unfold int64_ok. simpl. lia.
    + simpl. lia.
  - apply (proj1 Wait_budget). vm_compute. discriminate.
Defined.

(** C6, the claim as stated fails: after a first wait at position 0, a
    second wait at position 2 MiB has advanced by more than 1 MiB since the
    position recorded at the previous wait, and the wait period is not
    reset: the timer is armed with twice the base. *)
Lemma Wait_no_reset_after_zero :
  let p := wait_params (Wait DefaultRetryParameters None 0) in
  let pos := 2 * oneMB in
  fresh DefaultRetryParameters
  /\ waited DefaultRetryParameters [0] p
  /\ retryCtr p < MaxRetries p
  /\ reset_due p pos = false
  /\ wait_timer (Wait p None pos) = Some (2 * BaseWait p)
  /\ ~ (reset_due p pos = true
        <-> [0] = []
            \/ exists prev, last [0] = Some prev /\ prev + oneMB < pos).
Proof.
  cbv zeta. split; [| split; [| split; [| split; [| split]]]].
  - repeat split.
  - apply (waited_snoc DefaultRetryParameters [] DefaultRetryParameters None 0).
    + constructor.
    + simpl. lia.
  - vm_compute. reflexivity.
  - vm_compute. reflexivity.
  - vm_compute. reflexivity.
  - intros [_ H].
    assert (Hr : reset_due (wait_params (Wait DefaultRetryParameters None 0))
                   (2 * oneMB) = false) by (vm_compute; reflexivity).
    rewrite H in Hr; [discriminate |].
    right. exists 0. split; [reflexivity | vm_compute; reflexivity].
Qed.

(** C6, amended. Past the budget check, the wait period is reset to
    [BaseWait] exactly when it is zero -- as it is on the first wait of a
    fresh policy -- or the previous wait recorded a non-zero position and
    the current position is above that position plus 1 MiB ([uint64] sum);
    [prevPos] being the position given to the previous wait. *)
Theorem Wait_reset_rule (p0 p : RetryParameters) (hist : list Z)
    (done : option ctx_err) (pos : Z) :
  fresh p0 -> waited p0 hist p -> retryCtr p < MaxRetries p ->
  (hist = [] -> currentWait p = 0)
  /\ prevPos p = default 0 (last hist)
  /\ (reset_due p pos = true
      <-> currentWait p = 0
          \/ (prevPos p <> 0 /\ uint64_wrap (prevPos p + oneMB) < pos))
  /\ wait_timer (Wait p done pos)
     = Some (if reset_due p pos then BaseWait p else currentWait p).
Proof.
  intros Hf Hw Hlt. split; [| split; [| split]].
  - intros ->. inversion Hw as [| hist' p' done' pos' _ _ Heq]; subst.
    + apply Hf.
    + now destruct hist'.
  - now apply waited_prevPos with (p0 := p0).
  - apply reset_due_true.
  - now rewrite Wait_armed.
Qed.

Lemma Wait_reset_rule_witness :
  let p := wait_params (Wait DefaultRetryParameters None 1000) in
  reset_due p (1000 + 2 * oneMB) = true
  /\ wait_timer (Wait p None (1000 + 2 * oneMB)) = Some (BaseWait p).
Proof.
  cbv zeta.
  destruct (Wait_reset_rule DefaultRetryParameters
              (wait_params (Wait DefaultRetryParameters None 1000))
              ([] ++ [1000]) None (1000 + 2 * oneMB))
    as (_ & _ & Hiff & Ht).
  - repeat split.
  - apply waited_snoc; [constructor | simpl; lia].
  - vm_compute. reflexivity.
  - assert (Hr : reset_due (wait_params (Wait DefaultRetryParameters None 1000))
                   (1000 + 2 * oneMB) = true).
    { apply Hiff. right. split; vm_compute; [discriminate | reflexivity]. }
    split; [exact Hr |]. rewrite Ht, Hr. reflexivity.
Defined.

(** ** The driver *)

Section DriverProperties.

Variable canon : string -> string.
Variable ToLower : string -> string.
Variable Sscanf : string -> string -> error + (Z * Z * Z).
Variable NewRequest_err : string -> option error.
Variable Sprintf : string -> Z -> string.
Variable network : Client.

Local Abbreviation runInner :=
  (runInner canon ToLower Sscanf NewRequest_err Sprintf).
Local Abbreviation loop_body :=
  (loop_body canon ToLower Sscanf NewRequest_err Sprintf).
Local Abbreviation run_loop :=
  (run_loop canon ToLower Sscanf NewRequest_err Sprintf).
Local Abbreviation loop_reaches :=
  (loop_reaches canon ToLower Sscanf NewRequest_err Sprintf).
Local Abbreviation run := (run canon ToLower Sscanf NewRequest_err Sprintf).
Local Abbreviation DownloadURL :=
  (DownloadURL canon ToLower Sscanf NewRequest_err Sprintf network).
Local Abbreviation request_of := (request_of canon Sprintf).
Local Abbreviation checked_range := (checked_range canon ToLower Sscanf).
Local Abbreviation honest_response := (honest_response canon ToLower Sscanf).
Local Abbreviation honest_client := (honest_client canon ToLower Sscanf).
Local Abbreviation cooperative :=
  (cooperative canon ToLower Sscanf Sprintf).
Local Abbreviation new_downloader := (new_downloader network).
Local Abbreviation configure := (configure network).

Lemma set_contentLength_same (d : downloader) :
  set_contentLength (contentLength d) d = d.
Proof. now destruct d. Qed.

(** What [runInner] leaves alone: it changes nothing of the downloader but
    the content length, and that only while it is zero; it writes to no
    sink and logs at most its request. *)
(** [runInner] in terms of the request it sends. *)
Lemma runInner_sent (d : downloader) (w : world) :
  NewRequest_err (url d) = None ->
  runInner d w =
    let w1 := log (EvRequest (request_of d)) w in
    match httpClient d (requests_sent w) (request_of d) with
    | inl err => (inl (Errorfw "do request: %w" [] err), d, w1)
    | inr resp =>
      if StatusCode resp =? StatusBadGateway then
        (inl (Errorf "bad gateway" []), d, w1)
      else if contentLength d =? 0 then
        (if negb (StatusCode resp =? StatusOK) then
           inl (NonRetryableWrapf
                  (Errorf "unexpected status code on first read: %d"
                     [StatusCode resp]))
         else inr (resp_Body resp),
         set_contentLength (ContentLength resp) d, w1)
      else if negb (StatusCode resp =? StatusPartialContent) then
        (inl (NonRetryableWrapf
                (Errorf "unexpected status code on subsequent read: %d"
                   [StatusCode resp])), d, w1)
      else (checked_range d resp, d, w1)
    end.
Proof.
  intros Hreq. unfold runInner, checked_range. rewrite Hreq.
  fold (request_of d). cbv zeta.
  destruct (httpClient d (requests_sent w) (request_of d)) as [err | resp];
    [reflexivity |].
  repeat case_match; reflexivity.
Qed.

Lemma runInner_bad_url (d : downloader) (w : world) (err : error) :
  NewRequest_err (url d) = Some err ->
  runInner d w
  = (inl (NonRetryableWrapf (Errorfw "create request: %w" [] err)), d, w).
Proof. intros Hreq. unfold runInner. now rewrite Hreq. Qed.

Lemma runInner_frame (d d1 : downloader) (w w1 : world) (r : error + Body) :
  runInner d w = (r, d1, w1) ->
  (exists cl, d1 = set_contentLength cl d
              /\ (contentLength d <> 0 -> cl = contentLength d))
  /\ dest w1 = dest w /\ heap w1 = heap w
  /\ (w1 = w \/ w1 = log (EvRequest (request_of d)) w).
Proof.
  assert (Hsame : exists cl, d = set_contentLength cl d
                     /\ (contentLength d <> 0 -> cl = contentLength d)).
  { exists (contentLength d). now rewrite set_contentLength_same. }
  destruct (NewRequest_err (url d)) as [err |] eqn:Hreq.
  - rewrite (runInner_bad_url d w err Hreq). intros [= <- <- <-]. auto.
  - rewrite (runInner_sent d w Hreq). cbv zeta.
    generalize (request_of d). intros req H.
    repeat case_match; simplify_eq; simpl; split_and!; auto;
      match goal with
      | |- exists cl, set_contentLength ?c _ = _ /\ _ =>
          exists c; split; [reflexivity | intros; lia]
      end.
Qed.

Lemma timers_armed_log_request (req : Request) (w : world) :
  timers_armed (log (EvRequest req) w) = timers_armed w.
Proof.
  unfold timers_armed, log. simpl. rewrite filter_app, length_app. simpl.
  lia.
Qed.

Lemma requests_sent_log_request (req : Request) (w : world) :
  requests_sent (log (EvRequest req) w) = S (requests_sent w).
Proof.
  unfold requests_sent, log. simpl. rewrite filter_app, length_app. simpl.
  lia.
Qed.

Lemma run_loop_inner_error (fuel : nat) (ctx : Context) (d d1 : downloader)
    (w w1 : world) (e : error) :
  runInner d w = (inl e, d1, w1) ->
  run_loop (S fuel) ctx d w = Some (mkOutcome (Some e) d1 w1).
Proof. intros H. simpl. unfold loop_body. now rewrite H. Qed.

Lemma run_inner_error (ctx : Context) (d d1 : downloader) (w w1 : world)
    (e : error) :
  runInner d w = (inl e, d1, w1) ->
  run ctx d w = Some (mkOutcome (Some e) d1 w1).
Proof.
  intros H. unfold run, loop_fuel.
  now rewrite (run_loop_inner_error _ ctx d d1 w w1 e H).
Qed.

(** C3. An error of [runInner] -- every non-retryable failure is one -- ends
    the loop, and with it the session, at once with that error: the retry
    policy is as it was, no timer has been armed, at most the one request
    has been sent.  In
    particular a resume request (committed offset above 0, in a session
    state that satisfies [length_recorded]) answered with a status other
    than 206 ends the session so, with the non-retryable error of the
    unexpected status code (for a 502, with the bad-gateway error). *)
Theorem rejected_request_fails_fast :
  (forall (ctx : Context) (d d1 : downloader) (w w1 : world) (e : error),
      runInner d w = (inl e, d1, w1) ->
      loop_body ctx d w = inl (mkOutcome (Some e) d1 w1)
      /\ run ctx d w = Some (mkOutcome (Some e) d1 w1)
      /\ retryParameters d1 = retryParameters d
      /\ timers_armed w1 = timers_armed w
      /\ (requests_sent w1 <= S (requests_sent w))%nat)
  /\ (forall (ctx : Context) (d : downloader) (w : world) (resp : Response),
         NewRequest_err (url d) = None ->
         0 < Count (writer d) -> length_recorded d ->
         httpClient d (requests_sent w) (request_of d) = inr resp ->
         StatusCode resp <> StatusPartialContent ->
         exists e,
           run ctx d w
           = Some (mkOutcome (Some e) d (log (EvRequest (request_of d)) w))
           /\ e = (if StatusCode resp =? StatusBadGateway
                   then Errorf "bad gateway" []
                   else NonRetryableWrapf
                          (Errorf
                             "unexpected status code on subsequent read: %d"
                             [StatusCode resp]))).
Proof.
  split.
  - intros ctx d d1 w w1 e H.
    split; [unfold loop_body; now rewrite H |].
    split; [now apply run_inner_error |].
    destruct (runInner_frame d d1 w w1 _ H) as ((cl & -> & _) & _ & _ & Hw).
    split; [reflexivity |].
    destruct Hw as [-> | ->].
    + split; lia.
    + rewrite timers_armed_log_request, requests_sent_log_request.
      split; lia.
  - intros ctx d w resp Hreq Hoff [_ Hrec] Hdo Hst.
    specialize (Hrec Hoff).
    eexists. split; [| reflexivity].
    apply run_inner_error. rewrite (runInner_sent d w Hreq). cbv zeta.
    rewrite Hdo.
    destruct (StatusCode resp =? StatusBadGateway); [reflexivity |].
    destruct (Z.eqb_spec (contentLength d) 0) as [? | _]; [contradiction |].
    destruct (Z.eqb_spec (StatusCode resp) StatusPartialContent) as [? | _];
      [contradiction | reflexivity].
Qed.

Hypothesis Sscanf_int64 :
  forall (str format : string) (s e t : Z),
    Sscanf str format = inr (s, e, t) ->
    int64_ok s /\ int64_ok e /\ int64_ok t.

(** C4. On a 206 answer to a resume request (committed offset above 0, in
    a session state that satisfies [length_recorded]; offset and content
    length within [int64]), [runInner] reads the [Content-Range] header as
    [bytes s-e/t]; a header that does not scan is a non-retryable failure;
    a header that scans gives back the response body when [s] is the
    committed offset, [e] the content length minus one and [t] the content
    length, and a non-retryable failure otherwise. *)
Theorem content_range_validated (d : downloader) (w : world)
    (resp : Response) :
  NewRequest_err (url d) = None ->
  0 < Count (writer d) < 2 ^ 63 -> length_recorded d ->
  - 2 ^ 63 < contentLength d < 2 ^ 63 ->
  httpClient d (requests_sent w) (request_of d) = inr resp ->
  StatusCode resp = StatusPartialContent ->
  let w1 := log (EvRequest (request_of d)) w in
  match Sscanf (ToLower (Header_Get canon (Header resp) contentRangeHeader))
          "bytes %d-%d/%d" with
  | inl err =>
      runInner d w
      = (inl (NonRetryableWrapf
                (Errorfw "error parsing response content-range header: %w"
                   [] err)), d, w1)
  | inr (s, e, t) =>
      (s = Count (writer d) /\ e = contentLength d - 1 /\ t = contentLength d
       -> runInner d w = (inr (resp_Body resp), d, w1))
      /\ (~ (s = Count (writer d) /\ e = contentLength d - 1
             /\ t = contentLength d)
          -> exists err, runInner d w = (inl (ErrNonRetryable err), d, w1))
  end.
Proof.
  intros Hreq Hoff [_ Hrec] Hclr Hdo Hst. cbv zeta.
  assert (Hcl : contentLength d <> 0) by (apply Hrec; lia).
  rewrite (runInner_sent d w Hreq). cbv zeta. rewrite Hdo, Hst.
  change (StatusPartialContent =? StatusBadGateway) with false.
  destruct (Z.eqb_spec (contentLength d) 0) as [? | _]; [contradiction |].
  rewrite Z.eqb_refl. cbn [negb].
  unfold checked_range.
  destruct (Sscanf _ _) as [err | [[s e] t]] eqn:Hscan; [reflexivity |].
  destruct (Sscanf_int64 _ _ _ _ _ Hscan) as (Hs & _ & _).
  rewrite (int64_wrap_id (contentLength d - 1))
    by (unfold int64_ok; lia).
  pose proof (uint64_of_int64_eq s (Count (writer d)) Hs ltac:(lia))
    as Hstart.
  destruct (Z.eqb_spec (uint64_wrap s) (Count (writer d))) as [H1 | H1];
    cbn [negb].
  - destruct (Z.eqb_spec e (contentLength d - 1)) as [H2 | H2]; cbn [negb].
    + destruct (Z.eqb_spec t (contentLength d)) as [H3 | H3]; cbn [negb].
      * split; [reflexivity |]. intros Hn. exfalso. apply Hn. tauto.
      * split; [intros (_ & _ & ?); contradiction |].
        intros _. eexists. reflexivity.
    + split; [intros (_ & ? & _); contradiction |].
      intros _. eexists. reflexivity.
  - split; [intros (? & _ & _); exfalso; apply H1; tauto |].
    intros _. eexists. reflexivity.
Qed.

(** C5, amended. The request carries the driver's [Range: bytes=<offset>-]
    header when the committed offset is above 0, and the configured headers
    alone when it is 0.  On the first attempt (no content length recorded
    yet) a 502 answer is the plain bad-gateway error and records nothing;
    any other answer records the declared content length, and is a
    non-retryable failure unless its status is 200, in which case its body
    is returned. *)
Theorem first_attempt (d : downloader) (w : world) :
  NewRequest_err (url d) = None ->
  let req := request_of d in
  let w1 := log (EvRequest req) w in
  req_url req = url d
  /\ (0 < Count (writer d) ->
      req_header req
      = Header_Set canon (configured_header canon (headers d)) rangeHeader
          (Sprintf "bytes=%d-" (Count (writer d)))
      /\ req_header req !! canon rangeHeader
         = Some (Sprintf "bytes=%d-" (Count (writer d))))
  /\ (Count (writer d) <= 0 ->
      req_header req = configured_header canon (headers d))
  /\ (exists r d1, runInner d w = (r, d1, w1))
  /\ (forall resp : Response,
        httpClient d (requests_sent w) req = inr resp ->
        contentLength d = 0 ->
        (StatusCode resp = StatusBadGateway ->
         runInner d w = (inl (Errorf "bad gateway" []), d, w1))
        /\ (StatusCode resp <> StatusBadGateway ->
            runInner d w
            = (if StatusCode resp =? StatusOK then inr (resp_Body resp)
               else inl (NonRetryableWrapf
                           (Errorf "unexpected status code on first read: %d"
                              [StatusCode resp])),
               set_contentLength (ContentLength resp) d, w1))).
Proof.
  intros Hreq. cbv zeta. split; [reflexivity |].
  split; [| split; [| split]].
  - intros Hpos. unfold request_of. simpl.
    destruct (Z.ltb_spec 0 (Count (writer d))) as [_ | ?]; [| lia].
    split; [reflexivity |]. unfold Header_Set. apply lookup_insert_eq.
  - intros Hz. unfold request_of. simpl.
    destruct (Z.ltb_spec 0 (Count (writer d))) as [? | _]; [lia | reflexivity].
  - rewrite (runInner_sent d w Hreq). cbv zeta.
    repeat case_match; eauto.
  - intros resp Hdo Hcl.
    rewrite (runInner_sent d w Hreq). cbv zeta. rewrite Hdo, Hcl. simpl.
    split.
    + intros ->. reflexivity.
    + intros Hne.
      destruct (Z.eqb_spec (StatusCode resp) StatusBadGateway) as [? | _];
        [contradiction |].
      destruct (StatusCode resp =? StatusOK); reflexivity.
Qed.

(** ** Options *)

Lemma apply_opts_app (opts1 opts2 : list (option DownloadOpt))
    (d : downloader) :
  apply_opts (opts1 ++ opts2) d = apply_opts opts1 d ≫= apply_opts opts2.
Proof.
  revert d. induction opts1 as [| opt rest IH]; intros d; simpl.
  - reflexivity.
  - destruct opt as [f |]; simpl; apply IH.
Qed.

Lemma apply_opts_returns (opts : list (option DownloadOpt)) (d : downloader) :
  exists d1, apply_opts opts d = Some d1.
Proof.
  revert d. induction opts as [| opt rest IH]; intros d; simpl.
  - eauto.
  - destruct opt as [f |]; simpl; apply IH.
Qed.

Lemma apply_opts_nil_entry (opts1 opts2 : list (option DownloadOpt))
    (d : downloader) :
  apply_opts (opts1 ++ None :: opts2) d = apply_opts (opts1 ++ opts2) d.
Proof. rewrite !apply_opts_app. reflexivity. Qed.

(** C10. A [nil] entry of the option list is skipped: the loop over the
    options never calls it, so [DownloadURL] does not panic, and the
    downloader it configures and the result it returns are those of the
    call without that entry. *)
Theorem nil_option_skipped (ctx : Context) (u : string)
    (opts1 opts2 : list (option DownloadOpt)) (w : world) :
  (exists d, configure u (opts1 ++ None :: opts2) = Some d)
  /\ configure u (opts1 ++ None :: opts2)
     = configure u (opts1 ++ opts2)
  /\ DownloadURL ctx u (opts1 ++ None :: opts2) w
     = DownloadURL ctx u (opts1 ++ opts2) w
  /\ DownloadURL ctx u (opts1 ++ None :: opts2) w <> Panicked.
Proof.
  assert (Hcfg : configure u (opts1 ++ None :: opts2)
                 = configure u (opts1 ++ opts2)).
  { unfold configure. now rewrite apply_opts_nil_entry. }
  assert (Hsome : exists d,
             configure u (opts1 ++ None :: opts2) = Some d).
  { unfold configure.
    destruct (apply_opts_returns (opts1 ++ None :: opts2) (new_downloader u))
      as [d1 ->]. simpl. eauto. }
  split; [exact Hsome |]. split; [exact Hcfg |].
  unfold DownloadURL. rewrite Hcfg. split; [reflexivity |].
  destruct Hsome as [d Hd]. rewrite Hcfg in Hd. rewrite Hd.
  destruct (run ctx d w); discriminate.
Qed.

(** ** Finalization *)

Lemma run_finals_spec (fs : list FinalFunc) (i : nat) (w w1 : world)
    (r : option error) :
  run_finals fs i w = (r, w1) ->
  dest w1 = dest w /\ heap w1 = heap w
  /\ exists n : nat,
       trace w1 = trace w ++ (EvFinal <$> seq i n)
       /\ match r with
          | None =>
              n = length fs /\ forall f, f ∈ fs -> f (heap w) = None
          | Some err =>
              exists (k : nat) (f : FinalFunc),
                n = S k /\ fs !! k = Some f /\ f (heap w) = Some err
                /\ forall (j : nat) (g : FinalFunc),
                     (j < k)%nat -> fs !! j = Some g -> g (heap w) = None
          end.
Proof.
  revert i w. induction fs as [| f rest IH]; intros i w; simpl.
  - intros [= <- <-]. split_and!; [done | done |].
    exists 0%nat. simpl. rewrite app_nil_r. split_and!; [done | done |].
    intros f Hf. inversion Hf.
  - destruct (f (heap w)) as [err |] eqn:Hf.
    + intros [= <- <-]. split_and!; [done | done |].
      exists 1%nat. split; [reflexivity |].
      exists 0%nat, f. split_and!; [done | done | done |]. intros j g Hj. lia.
    + intros H. destruct (IH _ _ H) as (Hd & Hh & n & Ht & Hr).
      simpl in Hd, Hh, Ht. split_and!; [done | done |].
      exists (S n). split.
      { rewrite Ht. simpl. now rewrite <- app_assoc. }
      destruct r as [err |].
      * destruct Hr as (k & g & -> & Hk & Hg & Hbefore).
        exists (S k), g. split_and!; [done | done | done |].
        intros [| j] g' Hj Hl; simpl in Hl.
        -- now simplify_eq.
        -- apply (Hbefore j); [lia | done].
      * destruct Hr as [-> Hall]. split; [done |].
        intros g Hg. apply elem_of_cons in Hg as [-> | Hg]; [done |].
        now apply Hall.
Qed.

Lemma expectedHashCheck_spec (h : nat) (expected : bytes)
    (hp : gmap nat Hasher) :
  expectedHashCheck h expected hp
  = if decide (hash_Sum (hp !!! h) = expected) then None
    else Some (ErrHashMismatch expected (hash_Sum (hp !!! h))).
Proof.
  unfold expectedHashCheck.
  destruct (decide (hash_Sum (hp !!! h) = expected)) as [Heq | Hne].
  - now rewrite bool_decide_eq_true_2.
  - now rewrite bool_decide_eq_false_2.
Qed.


(** ** The loop *)

Lemma loop_body_inv (ctx : Context) (d : downloader) (w : world) :
  (exists e d1 w1,
      runInner d w = (inl e, d1, w1)
      /\ loop_body ctx d w = inl (mkOutcome (Some e) d1 w1))
  \/ (exists body d1 w1,
         runInner d w = (inr body, d1, w1)
         /\ let w2 := multi_write (wc_writer (writer d1)) (delivered body) w1 in
            let c := {| wc_writer := wc_writer (writer d1);
                        wc_count :=
                          uint64_wrap
                            (Count (writer d1)
                             + Z.of_nat (length (delivered body))) |} in
            let d2 := set_writer c d1 in
            let r := Wait (retryParameters d2) (ctx (timers_armed w2))
                       (Count c) in
            let d3 := set_retryParameters (wait_params r) d2 in
            let w3 := match wait_timer r with
                      | Some t => log (EvTimer t) w2
                      | None => w2
                      end in
            loop_body ctx d w
            = match ending body with
              | None => inl (mkOutcome None d2 w2)
              | Some _ =>
                  match wait_err r with
                  | Some err => inl (mkOutcome (Some err) d3 w3)
                  | None => inr (d3, w3)
                  end
              end).
Proof.
  unfold loop_body.
  destruct (runInner d w) as [[[e | body] d1] w1].
  - left. eauto.
  - right. exists body, d1, w1. split; [reflexivity |].
    unfold io_Copy, counter_write. cbv zeta.
    destruct (ending body); reflexivity.
Qed.

(** The loop never runs out of the fuel [run] gives it. *)
Lemma run_loop_returns (ctx : Context) (fuel : nat) (d : downloader)
    (w : world) :
  int64_ok (MaxRetries (retryParameters d)) ->
  int64_ok (retryCtr (retryParameters d)) ->
  (Z.to_nat (MaxRetries (retryParameters d) - retryCtr (retryParameters d))
   < fuel)%nat ->
  exists o, run_loop fuel ctx d w = Some o.
Proof.
  revert d w. induction fuel as [| fuel IH]; intros d w HM Hc Hfuel; [lia |].
  simpl.
  destruct (loop_body_inv ctx d w)
    as [(e & d1 & w1 & _ & ->) | (body & d1 & w1 & Hin & Hbody)]; [eauto |].
  cbv zeta in Hbody. rewrite Hbody. clear Hbody.
  destruct (runInner_frame d d1 w w1 _ Hin) as ((cl & -> & _) & _).
  destruct (ending body); [| eauto]. simpl.
  set (r := Wait _ _ _).
  destruct (wait_err r) as [err |] eqn:Herr; [eauto |].
  assert (Hlt : retryCtr (retryParameters d) < MaxRetries (retryParameters d)).
  { destruct (Z_le_gt_dec (MaxRetries (retryParameters d))
                (retryCtr (retryParameters d))) as [Hle | Hgt]; [| lia].
    subst r. rewrite Wait_exceeded in Herr by exact Hle. discriminate. }
  apply IH; simpl; subst r.
  - now rewrite Wait_MaxRetries.
  - rewrite Wait_retryCtr_armed by assumption. unfold int64_ok in *. lia.
  - rewrite Wait_MaxRetries, Wait_retryCtr_armed by assumption. lia.
Qed.

Lemma run_returns (ctx : Context) (d : downloader) (w : world) :
  int64_ok (MaxRetries (retryParameters d)) ->
  int64_ok (retryCtr (retryParameters d)) ->
  exists o, run ctx d w = Some o.
Proof.
  intros HM Hc. unfold run.
  destruct (run_loop_returns ctx (loop_fuel (retryParameters d)) d w HM Hc)
    as [o ->].
  - unfold loop_fuel. lia.
  - destruct (out_err o); [eauto |].
    destruct (run_finals _ _ _). eauto.
Qed.

(** The loop keeps the invariant [length_recorded] for a client whose
    bodies fit their declared length. *)
Lemma loop_body_length_recorded (ctx : Context) (d d3 : downloader)
    (w w3 : world) :
  bodies_fit_length (httpClient d) ->
  length_recorded d ->
  loop_body ctx d w = inr (d3, w3) ->
  length_recorded d3 /\ httpClient d3 = httpClient d.
Proof.
  intros Hfit Hrec Hloop.
  destruct (loop_body_inv ctx d w)
    as [(e & d1 & w1 & _ & Heq) | (body & d1 & w1 & Hin & Hbody)];
    [congruence |].
  cbv zeta in Hbody. rewrite Hloop in Hbody.
  destruct (ending body) as [e |]; [| discriminate].
  destruct (wait_err _); [discriminate |].
  injection Hbody as -> _. simpl.
  destruct (runInner_frame d d1 w w1 _ Hin) as ((cl & -> & Hcl) & _).
  split; [| reflexivity].
  destruct Hrec as [Hnn Hrec]. unfold length_recorded. simpl.
  split.
  { unfold uint64_wrap. apply Z.mod_pos_bound. lia. }
  destruct (NewRequest_err (url d)) as [err |] eqn:Hreq.
  { rewrite (runInner_bad_url d w err Hreq) in Hin. discriminate. }
  rewrite (runInner_sent d w Hreq) in Hin. cbv zeta in Hin.
  destruct (httpClient d _ _) as [err | resp] eqn:Hdo; [discriminate |].
  destruct (StatusCode resp =? StatusBadGateway); [discriminate |].
  destruct (Z.eqb_spec (contentLength d) 0) as [Hz | Hnz].
  - injection Hin as Hb Hd _.
    destruct (negb _); [discriminate |]. injection Hb as <-.
    intros Hpos Hcl0. subst cl.
    rewrite (Hfit _ _ _ Hdo Hcl0) in Hpos. simpl in Hpos.
    rewrite Z.add_0_r in Hpos.
    assert (Hc0 : Count (writer d) = 0).
    { destruct (Z_lt_le_dec 0 (Count (writer d))) as [Hp | Hp]; [| lia].
      exfalso. now apply Hrec. }
    rewrite Hc0 in Hpos. vm_compute in Hpos. discriminate.
  - intros _. rewrite Hcl by assumption. assumption.
Qed.

Lemma loop_reaches_length_recorded (ctx : Context) (d d1 : downloader)
    (w w1 : world) :
  loop_reaches ctx d w d1 w1 ->
  bodies_fit_length (httpClient d) ->
  length_recorded d ->
  length_recorded d1.
Proof.
  induction 1 as [| d w d1 w1 d2 w2 Hbody _ IH]; intros Hfit Hrec; [done |].
  destruct (loop_body_length_recorded ctx d d1 w w1 Hfit Hrec Hbody)
    as [Hrec1 Hcl].
  apply IH; [now rewrite Hcl | exact Hrec1].
Qed.

(** ** Writes through the chain *)

Lemma hash_Write_nil (h : Hasher) : hash_Write [] h = h.
Proof. destruct h. unfold hash_Write. simpl. now rewrite app_nil_r. Qed.

Lemma hash_Write_app (a b : bytes) (h : Hasher) :
  hash_Write b (hash_Write a h) = hash_Write (a ++ b) h.
Proof. unfold hash_Write. simpl. now rewrite app_assoc. Qed.

Lemma multi_write_cons (s : sink) (ws : list sink) (bs : bytes) (w : world) :
  multi_write (s :: ws) bs w = multi_write ws bs (sink_write bs w s).
Proof. reflexivity. Qed.

Lemma multi_write_trace (ws : list sink) (bs : bytes) (w : world) :
  trace (multi_write ws bs w) = trace w.
Proof.
  revert w. induction ws as [| s ws IH]; intros w; [reflexivity |].
  rewrite multi_write_cons, IH. now destruct s.
Qed.

Lemma multi_write_dest (ws : list sink) (bs : bytes) (w : world) :
  dest (multi_write ws bs w) = dest w ++ written (occurrences Dest ws) bs.
Proof.
  revert w. induction ws as [| s ws IH]; intros w.
  - simpl. now rewrite app_nil_r.
  - rewrite multi_write_cons, IH. unfold occurrences.
    destruct s as [| h].
    + rewrite filter_cons_True by reflexivity. simpl.
      unfold written. simpl. now rewrite <- app_assoc.
    + rewrite filter_cons_False by discriminate. reflexivity.
Qed.

Lemma multi_write_heap (ws : list sink) (bs : bytes) (w : world) (h : nat) :
  heap (multi_write ws bs w) !! h
  = hash_Write (written (occurrences (HashSink h) ws) bs) <$> heap w !! h.
Proof.
  revert w. induction ws as [| s ws IH]; intros w.
  - simpl. destruct (heap w !! h) as [x |]; simpl; [| reflexivity].
    unfold written. simpl. now rewrite hash_Write_nil.
  - rewrite multi_write_cons, IH. unfold occurrences.
    destruct s as [| h1].
    + rewrite filter_cons_False by discriminate. reflexivity.
    + destruct (decide (h1 = h)) as [-> | Hne].
      * rewrite filter_cons_True by reflexivity. simpl.
        rewrite lookup_alter_eq.
        destruct (heap w !! h) as [x |]; simpl; [| reflexivity].
        unfold written. simpl. now rewrite hash_Write_app.
      * rewrite filter_cons_False by congruence. simpl.
        now rewrite lookup_alter_ne.
Qed.

Lemma written_once (bs : bytes) : written 1 bs = bs.
Proof. unfold written. simpl. apply app_nil_r. Qed.

(** ** Committed bytes *)

Lemma prefix_take_length (l1 l2 : bytes) :
  l1 `prefix_of` l2 -> l1 = take (length l1) l2.
Proof. intros [k ->]. now rewrite take_app_length. Qed.

(** A body [runInner] hands back to a session that has committed [k] bytes
    of the data of an honest client carries the data from [k] on. *)
Lemma runInner_serves (data : bytes) (d d1 : downloader) (w w1 : world)
    (body : Body) (k : nat) :
  Z.of_nat (length data) < 2 ^ 63 ->
  honest_client data (httpClient d) ->
  Count (writer d) = Z.of_nat k ->
  (contentLength d = 0 -> k = 0%nat) ->
  runInner d w = (inr body, d1, w1) ->
  serves data (Z.of_nat k) body
  /\ (contentLength d1 = 0 -> length data = 0%nat).
Proof.
  intros Hlen Hhon Hcount Hk0 Hin.
  destruct (NewRequest_err (url d)) as [err |] eqn:Hreq.
  { rewrite (runInner_bad_url d w err Hreq) in Hin. discriminate. }
  rewrite (runInner_sent d w Hreq) in Hin. cbv zeta in Hin.
  destruct (httpClient d _ _) as [err | resp] eqn:Hdo; [discriminate |].
  destruct (Hhon _ _ _ Hdo) as [H200 H206].
  destruct (StatusCode resp =? StatusBadGateway); [discriminate |].
  destruct (Z.eqb_spec (contentLength d) 0) as [Hz | Hnz].
  - destruct (Z.eqb_spec (StatusCode resp) StatusOK) as [Hok | ?];
      [| discriminate].
    simpl in Hin. injection Hin as <- <- _.
    destruct (H200 Hok) as [Hcl Hserves].
    rewrite (Hk0 Hz). simpl. split; [exact Hserves |]. lia.
  - destruct (Z.eqb_spec (StatusCode resp) StatusPartialContent)
      as [Hpc | ?]; [| discriminate].
    simpl in Hin. injection Hin as Hchk <- _.
    split; [| intros ?; contradiction].
    unfold checked_range in Hchk.
    destruct (Sscanf _ _) as [err | [[s e] t]] eqn:Hscan; [discriminate |].
    destruct (H206 Hpc s e t eq_refl) as (Hs & _ & Hserves).
    destruct (Z.eqb_spec (uint64_wrap s) (Count (writer d))) as [Hst | ?];
      [| discriminate].
    simpl in Hchk. repeat case_match; try discriminate.
    injection Hchk as <-.
    rewrite uint64_wrap_id in Hst by (unfold uint64_ok; lia).
    rewrite <- Hcount, <- Hst. exact Hserves.
Qed.

(** One round of the loop over an honest client: the session ends with all
    of [data] committed, or ends in an error, or goes round again with
    more of [data] committed. *)
Lemma loop_body_committed (data dest0 : bytes) (h : nat) (h0 : Hasher)
    (ctx : Context) (d : downloader) (w : world) (k : nat) :
  Z.of_nat (length data) < 2 ^ 63 ->
  honest_client data (httpClient d) ->
  writes_once h (wc_writer (writer d)) ->
  committed data dest0 h h0 k d w ->
  match loop_body ctx d w with
  | inl o =>
      out_err o = None ->
      committed data dest0 h h0 (length data) (out_d o) (out_w o)
  | inr (d3, w3) =>
      exists k3, committed data dest0 h h0 k3 d3 w3
                 /\ httpClient d3 = httpClient d
                 /\ wc_writer (writer d3) = wc_writer (writer d)
  end.
Proof.
  intros Hlen Hhon [HonceD HonceH] (Hle & Hcount & Hdest & Hheap & Hk0).
  destruct (loop_body_inv ctx d w)
    as [(e & d1 & w1 & _ & ->) | (body & d1 & w1 & Hin & Hbody)];
    [discriminate |].
  cbv zeta in Hbody. rewrite Hbody. clear Hbody.
  destruct (runInner_serves data d d1 w w1 body k Hlen Hhon Hcount Hk0 Hin)
    as [[Hpre Hall] Hcl1].
  destruct (runInner_frame d d1 w w1 _ Hin)
    as ((cl & -> & _) & Hd1 & Hh1 & _).
  simpl in Hcl1. rewrite Nat2Z.id in Hpre, Hall.
  set (m := length (delivered body)).
  assert (Hm : (k + m <= length data)%nat).
  { apply prefix_length in Hpre. rewrite length_drop in Hpre. lia. }
  assert (Htake : take k data ++ delivered body = take (k + m) data).
  { rewrite (prefix_take_length _ _ Hpre). apply take_take_drop. }
  assert (Hstep : committed data dest0 h h0 (k + m)
            (set_writer
               {| wc_writer := wc_writer (writer (set_contentLength cl d));
                  wc_count :=
                    uint64_wrap
                      (Count (writer (set_contentLength cl d))
                       + Z.of_nat (length (delivered body))) |}
               (set_contentLength cl d))
            (multi_write (wc_writer (writer (set_contentLength cl d)))
               (delivered body) w1)).
  { simpl. split_and!.
    - exact Hm.
    - cbn [Count writer set_writer wc_count]. rewrite Hcount.
      rewrite uint64_wrap_id by (unfold uint64_ok; lia). lia.
    - rewrite multi_write_dest, HonceD, written_once, Hd1, Hdest.
      now rewrite <- app_assoc, Htake.
    - rewrite multi_write_heap, HonceH, written_once, Hh1, Hheap. simpl.
      now rewrite hash_Write_app, Htake.
    - simpl. intros Hz. specialize (Hcl1 Hz). lia. }
  destruct (ending body) as [e |] eqn:Hend.
  - destruct (wait_err _) as [err |]; [discriminate |].
    exists (k + m)%nat. split; [| split; reflexivity].
    destruct Hstep as (H1 & H2 & H3 & H4 & H5).
    split_and!; try assumption.
    + destruct (wait_timer _); simpl; exact H3.
    + destruct (wait_timer _); simpl; exact H4.
  - intros _. specialize (Hall eq_refl).
    assert (Hkm : (k + m)%nat = length data).
    { subst m. rewrite Hall, length_drop. lia. }
    rewrite <- Hkm. exact Hstep.
Qed.

Lemma run_loop_committed (data dest0 : bytes) (h : nat) (h0 : Hasher)
    (ctx : Context) (fuel : nat) (d : downloader) (w : world) (k : nat)
    (o : outcome) :
  Z.of_nat (length data) < 2 ^ 63 ->
  honest_client data (httpClient d) ->
  writes_once h (wc_writer (writer d)) ->
  committed data dest0 h h0 k d w ->
  run_loop fuel ctx d w = Some o ->
  out_err o = None ->
  committed data dest0 h h0 (length data) (out_d o) (out_w o).
Proof.
  intros Hlen. revert d w k.
  induction fuel as [| fuel IH]; intros d w k Hhon Honce Hcm Hrun Herr;
    [discriminate |].
  simpl in Hrun.
  pose proof (loop_body_committed data dest0 h h0 ctx d w k Hlen Hhon Honce Hcm)
    as Hbody.
  destruct (loop_body ctx d w) as [o1 | [d3 w3]].
  - injection Hrun as ->. now apply Hbody.
  - destruct Hbody as (k3 & Hcm3 & Hcl3 & Hw3).
    apply (IH d3 w3 k3); try assumption.
    + now rewrite Hcl3.
    + now rewrite Hw3.
Qed.

(** ** What the options configure *)

Lemma apply_opt_chain (f : DownloadOpt) (d : downloader) :
  tmpWriter (apply_opt f d) = tmpWriter d ++ (HashSink <$> attached (Some f))
  /\ contentLength (apply_opt f d) = contentLength d.
Proof.
  destruct f; simpl; unfold io_MultiWriter; rewrite ?app_nil_r; done.
Qed.

Lemma apply_opts_chain (opts : list (option DownloadOpt)) (d d1 : downloader) :
  apply_opts opts d = Some d1 ->
  tmpWriter d1 = tmpWriter d ++ (HashSink <$> attached_hashers opts)
  /\ contentLength d1 = contentLength d.
Proof.
  revert d. induction opts as [| opt rest IH]; intros d; simpl.
  - intros [= <-]. unfold attached_hashers. simpl. now rewrite app_nil_r.
  - unfold attached_hashers. simpl. fold (attached_hashers rest).
    destruct opt as [f |]; simpl.
    + intros H. destruct (IH _ H) as [Hw Hc].
      destruct (apply_opt_chain f d) as [Hw1 Hc1].
      rewrite Hw, Hc, Hw1, Hc1, fmap_app, <- app_assoc. done.
    + intros H. now apply IH.
Qed.

Lemma apply_opts_finalFuncs (opts : list (option DownloadOpt))
    (d d1 : downloader) (h : nat) (expected : bytes) :
  apply_opts opts d = Some d1 ->
  Some (WithExpectedHash h expected) ∈ opts ->
  expectedHashCheck h expected ∈ finalFuncs d1.
Proof.
  assert (Hkeep : forall opts d d1 (g : FinalFunc),
             apply_opts opts d = Some d1 -> g ∈ finalFuncs d ->
             g ∈ finalFuncs d1).
  { clear. intros opts. induction opts as [| opt rest IH]; intros d d1 g; simpl.
    - now intros [= <-].
    - destruct opt as [f |]; simpl; [| apply IH].
      intros H Hg. apply (IH _ _ _ H).
      destruct f; simpl; try done. apply elem_of_app. now left. }
  revert d. induction opts as [| opt rest IH]; intros d Hopts Hin.
  - inversion Hin.
  - apply elem_of_cons in Hin as [<- | Hin]; simpl in Hopts.
    + apply (Hkeep _ _ _ _ Hopts). simpl. apply elem_of_app. right.
      apply list_elem_of_singleton. reflexivity.
    + destruct opt as [f |]; simpl in Hopts; now apply (IH _ Hopts).
Qed.

(** The checks are registered in the order of the options. *)
Lemma apply_opts_finalFuncs_order (opts : list (option DownloadOpt))
    (d d1 : downloader) :
  apply_opts opts d = Some d1 ->
  finalFuncs d1 = finalFuncs d ++ mjoin (registered <$> opts).
Proof.
  revert d. induction opts as [| opt rest IH]; intros d; simpl.
  - intros [= <-]. now rewrite app_nil_r.
  - destruct opt as [f |]; simpl.
    + intros H. rewrite (IH _ H). destruct f; simpl; try reflexivity.
      now rewrite <- app_assoc.
    + apply IH.
Qed.

Lemma occurrences_HashSink (h : nat) (hs : list nat) :
  occurrences (HashSink h) (HashSink <$> hs) = occurrences h hs.
Proof.
  unfold occurrences. induction hs as [| x hs IH]; [reflexivity |].
  rewrite fmap_cons. destruct (decide (x = h)) as [-> | Hne].
  - rewrite !filter_cons_True by reflexivity. simpl. now rewrite IH.
  - rewrite !filter_cons_False by congruence. exact IH.
Qed.

Lemma occurrences_Dest (hs : list nat) :
  occurrences Dest (HashSink <$> hs) = 0%nat.
Proof.
  unfold occurrences. induction hs as [| x hs IH]; [reflexivity |].
  rewrite fmap_cons, filter_cons_False by discriminate. exact IH.
Qed.

Lemma configure_spec (u : string) (opts : list (option DownloadOpt))
    (d : downloader) :
  configure u opts = Some d ->
  wc_writer (writer d) = Dest :: (HashSink <$> attached_hashers opts)
  /\ Count (writer d) = 0
  /\ contentLength d = 0
  /\ (forall h expected,
        Some (WithExpectedHash h expected) ∈ opts ->
        expectedHashCheck h expected ∈ finalFuncs d).
Proof.
  unfold configure. intros H.
  destruct (apply_opts opts (new_downloader u)) as [d1 |] eqn:Hopts;
    [| discriminate].
  simpl in H. injection H as <-.
  destruct (apply_opts_chain _ _ _ Hopts) as [Hw Hc].
  simpl. split_and!; [exact Hw | reflexivity | exact Hc |].
  intros h expected Hin. exact (apply_opts_finalFuncs _ _ _ _ _ Hopts Hin).
Qed.

Lemma configured_writes_once (h : nat) (hs : list nat) :
  occurrences h hs = 1%nat ->
  writes_once h (Dest :: (HashSink <$> hs)).
Proof.
  intros H. split.
  - unfold occurrences. rewrite filter_cons_True by reflexivity.
    simpl. f_equal. apply occurrences_Dest.
  - unfold occurrences. rewrite filter_cons_False by discriminate.
    fold (occurrences (HashSink h) (HashSink <$> hs)).
    now rewrite occurrences_HashSink.
Qed.

Lemma loop_body_finalFuncs (ctx : Context) (d : downloader) (w : world) :
  match loop_body ctx d w with
  | inl o => finalFuncs (out_d o) = finalFuncs d
  | inr (d3, _) => finalFuncs d3 = finalFuncs d
  end.
Proof.
  destruct (loop_body_inv ctx d w)
    as [(e & d1 & w1 & Hin & ->) | (body & d1 & w1 & Hin & Hbody)];
    destruct (runInner_frame d d1 w w1 _ Hin) as ((cl & -> & _) & _).
  - reflexivity.
  - cbv zeta in Hbody. rewrite Hbody.
    destruct (ending body); [| reflexivity].
    destruct (wait_err _); reflexivity.
Qed.

Lemma run_loop_finalFuncs (ctx : Context) (fuel : nat) (d : downloader)
    (w : world) (o : outcome) :
  run_loop fuel ctx d w = Some o -> finalFuncs (out_d o) = finalFuncs d.
Proof.
  revert d w. induction fuel as [| fuel IH]; intros d w; [discriminate |].
  simpl. pose proof (loop_body_finalFuncs ctx d w) as Hb.
  destruct (loop_body ctx d w) as [o1 | [d3 w3]].
  - now intros [= <-].
  - intros H. rewrite (IH _ _ H). exact Hb.
Qed.

(** C9. When the copy loop ends without error the checks registered in
    [finalFuncs] are run from the first on, each once, up to and including
    the first that returns an error -- all of them if none does -- and the
    session's result is that error, or [nil]; when the loop ends in an
    error no check is run.  The check of [WithExpectedHash] returns
    [ErrHashMismatch] with the expected and the computed digest when the
    two differ, and [nil] when they are equal. *)
Theorem finalization_in_order :
  (forall (ctx : Context) (d : downloader) (w : world) (o : outcome),
      run_loop (loop_fuel (retryParameters d)) ctx d w = Some o ->
      match out_err o with
      | Some err => run ctx d w = Some o
      | None =>
          exists (n : nat) (r : option error) (w1 : world),
            run ctx d w = Some (mkOutcome r (out_d o) w1)
            /\ dest w1 = dest (out_w o) /\ heap w1 = heap (out_w o)
            /\ trace w1 = trace (out_w o) ++ (EvFinal <$> seq 0 n)
            /\ match r with
               | None =>
                   n = length (finalFuncs d)
                   /\ forall f, f ∈ finalFuncs d ->
                                f (heap (out_w o)) = None
               | Some err =>
                   exists (k : nat) (f : FinalFunc),
                     n = S k /\ finalFuncs d !! k = Some f
                     /\ f (heap (out_w o)) = Some err
                     /\ forall (j : nat) (g : FinalFunc),
                          (j < k)%nat -> finalFuncs d !! j = Some g ->
                          g (heap (out_w o)) = None
               end
      end)
  /\ (forall (h : nat) (expected : bytes) (hp : gmap nat Hasher),
         (hash_Sum (hp !!! h) = expected ->
          expectedHashCheck h expected hp = None)
         /\ (hash_Sum (hp !!! h) <> expected ->
             expectedHashCheck h expected hp
             = Some (ErrHashMismatch expected (hash_Sum (hp !!! h))))).
Proof.
  split.
  - intros ctx d w o Hloop. unfold run. rewrite Hloop.
    destruct (out_err o) as [err |] eqn:Herr; [reflexivity |].
    rewrite (run_loop_finalFuncs ctx _ d w o Hloop).
    destruct (run_finals (finalFuncs d) 0 (out_w o)) as [r w1] eqn:Hf.
    destruct (run_finals_spec _ _ _ _ _ Hf) as (Hd & Hh & n & Ht & Hr).
    exists n, r, w1. split_and!; done.
  - intros h expected hp. rewrite expectedHashCheck_spec.
    split; intros H; case_decide; done.
Qed.

(** C1. A download from a client that serves [data] honestly, however
    often its bodies are cut, that returns without error has appended
    [data] to the destination, once, and has fed the hasher attached (once)
    at [h] exactly [data]: the hasher's state is the one it had, followed
    by [data]; from a fresh hasher its digest is the digest of [data], and
    it is the digest every [WithExpectedHash] option on [h] expects. *)
Theorem download_exactly_once (data : bytes) (ctx : Context) (u : string)
    (opts : list (option DownloadOpt)) (w : world) (d : downloader)
    (h : nat) (h0 : Hasher) (o : outcome) :
  Z.of_nat (length data) < 2 ^ 63 ->
  configure u opts = Some d ->
  honest_client data (httpClient d) ->
  occurrences h (attached_hashers opts) = 1%nat ->
  heap w !! h = Some h0 ->
  DownloadURL ctx u opts w = Returned o ->
  out_err o = None ->
  dest (out_w o) = dest w ++ data
  /\ Count (writer (out_d o)) = Z.of_nat (length data)
  /\ heap (out_w o) !!! h = hash_Write data h0
  /\ (absorbed h0 = [] -> hash_Sum (heap (out_w o) !!! h) = digest h0 data)
  /\ (forall expected,
        Some (WithExpectedHash h expected) ∈ opts ->
        hash_Sum (heap (out_w o) !!! h) = expected).
Proof.
  intros Hlen Hcfg Hhon Honce Hh0 Hrun Herr.
  destruct (configure_spec u opts d Hcfg) as (Hchain & Hcount & Hcl & Hfin).
  unfold DownloadURL in Hrun. rewrite Hcfg in Hrun.
  destruct (run ctx d w) as [o1 |] eqn:Hr; [| discriminate].
  injection Hrun as ->.
  unfold run in Hr.
  destruct (run_loop _ ctx d w) as [o2 |] eqn:Hloop; [| discriminate].
  assert (Hcm0 : committed data (dest w) h h0 0 d w).
  { unfold committed. simpl. rewrite app_nil_r, hash_Write_nil.
    split_and!; [lia | exact Hcount | done | exact Hh0 | done]. }
  assert (Hwo : writes_once h (wc_writer (writer d))).
  { rewrite Hchain. now apply configured_writes_once. }
  destruct (out_err o2) as [err |] eqn:Herr2.
  { injection Hr as <-. congruence. }
  pose proof (run_loop_committed data (dest w) h h0 ctx _ d w 0 o2
                Hlen Hhon Hwo Hcm0 Hloop Herr2)
    as (_ & Hc & Hd & Hh & _).
  pose proof (run_loop_finalFuncs ctx _ d w o2 Hloop) as Hff.
  destruct (run_finals (finalFuncs (out_d o2)) 0 (out_w o2)) as [r w1] eqn:Hf.
  injection Hr as <-. simpl in Herr. subst r.
  destruct (run_finals_spec _ _ _ _ _ Hf) as (Hd1 & Hh1 & n & _ & _ & Hall).
  simpl. rewrite firstn_all in Hd, Hh.
  assert (Hlook : heap w1 !!! h = hash_Write data h0).
  { apply lookup_total_correct. now rewrite Hh1. }
  split_and!.
  - now rewrite Hd1.
  - exact Hc.
  - exact Hlook.
  - intros Hfresh. rewrite Hlook. unfold hash_Sum, hash_Write. simpl.
    now rewrite Hfresh.
  - intros expected Hin. specialize (Hfin h expected Hin).
    rewrite <- Hff in Hfin. specialize (Hall _ Hfin).
    rewrite expectedHashCheck_spec in Hall.
    rewrite <- Hh1 in Hall. case_decide; [done | discriminate].
Qed.

(** Every state at the top of the loop of a session [DownloadURL] starts
    satisfies [length_recorded], when the bodies of the client fit their
    declared length. *)
Lemma session_length_recorded (ctx : Context) (u : string)
    (opts : list (option DownloadOpt)) (d d1 : downloader) (w w1 : world) :
  configure u opts = Some d ->
  bodies_fit_length (httpClient d) ->
  loop_reaches ctx d w d1 w1 ->
  length_recorded d1.
Proof.
  intros Hcfg Hfit Hreach.
  apply (loop_reaches_length_recorded ctx d d1 w w1 Hreach Hfit).
  destruct (configure_spec u opts d Hcfg) as (_ & Hcount & _).
  unfold length_recorded. rewrite Hcount. split; lia.
Qed.

(** [DownloadURL] returns, for retry parameters that are [int] values. *)
Lemma DownloadURL_returns (ctx : Context) (u : string)
    (opts : list (option DownloadOpt)) (w : world) (d : downloader) :
  configure u opts = Some d ->
  int64_ok (MaxRetries (retryParameters d)) ->
  int64_ok (retryCtr (retryParameters d)) ->
  exists o, DownloadURL ctx u opts w = Returned o.
Proof.
  intros Hcfg HM Hc. unfold DownloadURL. rewrite Hcfg.
  destruct (run_returns ctx d w HM Hc) as [o ->]. eauto.
Qed.


(** What the loop does with a body that is cut: it waits, which takes one
    retry from the budget, and goes round again. *)
Lemma interrupted_copy_retries (ctx : Context) (d d1 : downloader)
    (w w1 : world) (body : Body) (e : error) :
  runInner d w = (inr body, d1, w1) ->
  ending body = Some e ->
  int64_ok (MaxRetries (retryParameters d)) ->
  int64_ok (retryCtr (retryParameters d)) ->
  retryCtr (retryParameters d) < MaxRetries (retryParameters d) ->
  ctx (timers_armed w1) = None ->
  exists d3 w3 t,
    loop_body ctx d w = inr (d3, w3)
    /\ retryCtr (retryParameters d3) = retryCtr (retryParameters d) + 1
    /\ trace w3 = trace w1 ++ [EvTimer t].
Proof.
  intros Hin Hend HM Hc Hlt Hctx.
  destruct (loop_body_inv ctx d w)
    as [(e1 & d1' & w1' & Hin' & _) | (body' & d1' & w1' & Hin' & Hbody)];
    [congruence |].
  rewrite Hin in Hin'. injection Hin' as <- <- <-.
  cbv zeta in Hbody. rewrite Hend in Hbody.
  destruct (runInner_frame d d1 w w1 _ Hin) as ((cl & -> & _) & _).
  simpl in Hbody.
  unfold timers_armed in Hbody. rewrite multi_write_trace in Hbody.
  fold (timers_armed w1) in Hbody. rewrite Hctx in Hbody.
  rewrite Wait_armed in Hbody by exact Hlt. simpl in Hbody.
  eexists _, _, _. split; [exact Hbody |]. simpl.
  split; [apply int64_wrap_id; unfold int64_ok in *; lia |].
  now rewrite multi_write_trace.
Qed.

(** C2, where the code departs from the claim: a 502 answer to the first
    request ends the session there, with the bad-gateway error; one
    request has been sent, no wait has been made and nothing has been taken
    from the retry budget -- whatever [MaxRetries] is. *)
Theorem bad_gateway_ends_session (ctx : Context) (u : string)
    (opts : list (option DownloadOpt)) (w : world) (d : downloader)
    (resp : Response) :
  configure u opts = Some d ->
  NewRequest_err (url d) = None ->
  httpClient d (requests_sent w) (request_of d) = inr resp ->
  StatusCode resp = StatusBadGateway ->
  DownloadURL ctx u opts w
  = Returned (mkOutcome (Some (Errorf "bad gateway" [])) d
                (log (EvRequest (request_of d)) w)).
Proof.
  intros Hcfg Hreq Hdo Hst. unfold DownloadURL. rewrite Hcfg.
  rewrite (run_inner_error ctx d d w (log (EvRequest (request_of d)) w)
             (Errorf "bad gateway" [])); [reflexivity |].
  rewrite (runInner_sent d w Hreq). cbv zeta. rewrite Hdo, Hst. reflexivity.
Qed.

(** A transport error on a request ends the session in the same way. *)
Lemma transport_error_ends_session (ctx : Context) (d : downloader)
    (w : world) (err : error) :
  NewRequest_err (url d) = None ->
  httpClient d (requests_sent w) (request_of d) = inl err ->
  run ctx d w
  = Some (mkOutcome (Some (Errorfw "do request: %w" [] err)) d
            (log (EvRequest (request_of d)) w)).
Proof.
  intros Hreq Hdo. apply run_inner_error.
  rewrite (runInner_sent d w Hreq). cbv zeta. now rewrite Hdo.
Qed.

(** ** Requests and waits of a session *)

Lemma timers_armed_log_timer (t : Z) (w : world) :
  timers_armed (log (EvTimer t) w) = S (timers_armed w).
Proof.
  unfold timers_armed, log. simpl. rewrite filter_app, length_app. simpl.
  lia.
Qed.

Lemma requests_sent_log_timer (t : Z) (w : world) :
  requests_sent (log (EvTimer t) w) = requests_sent w.
Proof.
  unfold requests_sent, log. simpl. rewrite filter_app, length_app. simpl.
  lia.
Qed.

Lemma requests_sent_multi_write (ws : list sink) (bs : bytes) (w : world) :
  requests_sent (multi_write ws bs w) = requests_sent w.
Proof. unfold requests_sent. now rewrite multi_write_trace. Qed.

Lemma timers_armed_multi_write (ws : list sink) (bs : bytes) (w : world) :
  timers_armed (multi_write ws bs w) = timers_armed w.
Proof. unfold timers_armed. now rewrite multi_write_trace. Qed.

Lemma counts_of_finals (w w1 : world) (i n : nat) :
  trace w1 = trace w ++ (EvFinal <$> seq i n) ->
  requests_sent w1 = requests_sent w /\ timers_armed w1 = timers_armed w.
Proof.
  intros H. unfold requests_sent, timers_armed. rewrite H, !filter_app.
  rewrite !length_app.
  assert (Hr : filter (fun e => is_request e = true) (EvFinal <$> seq i n)
               = []).
  { generalize (seq i n). intros l. induction l as [| x l IH]; [done |].
    rewrite fmap_cons, filter_cons_False by discriminate. exact IH. }
  assert (Ht : filter (fun e => is_timer e = true) (EvFinal <$> seq i n)
               = []).
  { generalize (seq i n). intros l. induction l as [| x l IH]; [done |].
    rewrite fmap_cons, filter_cons_False by discriminate. exact IH. }
  rewrite Hr, Ht. simpl. lia.
Qed.

(** What one round of the loop adds to the counts: at most one request;
    one timer and one retry when it waits. *)
Lemma loop_body_counts (ctx : Context) (d : downloader) (w : world) :
  int64_ok (MaxRetries (retryParameters d)) ->
  int64_ok (retryCtr (retryParameters d)) ->
  match loop_body ctx d w with
  | inl o =>
      (requests_sent (out_w o) <= S (requests_sent w))%nat
      /\ Z.of_nat (timers_armed (out_w o)) - Z.of_nat (timers_armed w)
         = retryCtr (retryParameters (out_d o))
           - retryCtr (retryParameters d)
      /\ 0 <= retryCtr (retryParameters (out_d o))
              - retryCtr (retryParameters d)
      /\ (retryCtr (retryParameters d) <= MaxRetries (retryParameters d) ->
          retryCtr (retryParameters (out_d o))
          <= MaxRetries (retryParameters d))
      /\ MaxRetries (retryParameters (out_d o))
         = MaxRetries (retryParameters d)
  | inr (d3, w3) =>
      (requests_sent w3 <= S (requests_sent w))%nat
      /\ timers_armed w3 = S (timers_armed w)
      /\ retryCtr (retryParameters d3) = retryCtr (retryParameters d) + 1
      /\ retryCtr (retryParameters d) < MaxRetries (retryParameters d)
      /\ MaxRetries (retryParameters d3) = MaxRetries (retryParameters d)
  end.
Proof.
  intros HM Hc.
  destruct (loop_body_inv ctx d w)
    as [(e & d1 & w1 & Hin & ->) | (body & d1 & w1 & Hin & Hbody)];
    destruct (runInner_frame d d1 w w1 _ Hin)
      as ((cl & -> & _) & _ & _ & Hw1).
  - simpl. assert ((requests_sent w1 <= S (requests_sent w))%nat
                   /\ timers_armed w1 = timers_armed w) as [Hr Ht].
    { destruct Hw1 as [-> | ->]; [lia |].
      rewrite requests_sent_log_request, timers_armed_log_request. lia. }
    rewrite Ht. split_and!; lia.
  - cbv zeta in Hbody. rewrite Hbody. clear Hbody.
    assert ((requests_sent w1 <= S (requests_sent w))%nat
            /\ timers_armed w1 = timers_armed w) as [Hr Ht].
    { destruct Hw1 as [-> | ->]; [lia |].
      rewrite requests_sent_log_request, timers_armed_log_request. lia. }
    destruct (ending body) as [e |].
    2:{ simpl. rewrite requests_sent_multi_write, timers_armed_multi_write.
        rewrite Ht. split_and!; lia. }
    simpl.
    destruct (Z_le_gt_dec (MaxRetries (retryParameters d))
                (retryCtr (retryParameters d))) as [Hge | Hgt].
    + rewrite Wait_exceeded by exact Hge. simpl.
      rewrite requests_sent_multi_write, timers_armed_multi_write, Ht.
      split_and!; lia.
    + rewrite Wait_armed by lia. simpl.
      rewrite (int64_wrap_id (retryCtr (retryParameters d) + 1))
        by (unfold int64_ok in *; lia).
      destruct (ctx _) as [c |]; simpl;
        rewrite requests_sent_log_timer, timers_armed_log_timer,
          requests_sent_multi_write, timers_armed_multi_write, Ht;
        split_and!; lia.
Qed.

Lemma run_loop_counts (ctx : Context) (fuel : nat) (d : downloader)
    (w : world) (o : outcome) :
  int64_ok (MaxRetries (retryParameters d)) ->
  int64_ok (retryCtr (retryParameters d)) ->
  run_loop fuel ctx d w = Some o ->
  Z.of_nat (requests_sent (out_w o))
  <= Z.of_nat (requests_sent w)
     + (Z.of_nat (timers_armed (out_w o)) - Z.of_nat (timers_armed w)) + 1
  /\ Z.of_nat (timers_armed (out_w o)) - Z.of_nat (timers_armed w)
     = retryCtr (retryParameters (out_d o)) - retryCtr (retryParameters d)
  /\ 0 <= retryCtr (retryParameters (out_d o))
          - retryCtr (retryParameters d)
  /\ (retryCtr (retryParameters d) <= MaxRetries (retryParameters d) ->
      retryCtr (retryParameters (out_d o))
      <= MaxRetries (retryParameters d)).
Proof.
  revert d w. induction fuel as [| fuel IH]; intros d w HM Hc; [discriminate |].
  simpl. pose proof (loop_body_counts ctx d w HM Hc) as Hb.
  destruct (loop_body ctx d w) as [o1 | [d3 w3]].
  - intros [= <-]. destruct Hb as (H1 & H2 & H3 & H4 & _).
    split_and!; [lia | exact H2 | exact H3 | exact H4].
  - intros Hrun. destruct Hb as (H1 & H2 & H3 & H4 & H5).
    destruct (IH d3 w3) as (I1 & I2 & I3 & I4); [| | exact Hrun |].
    + now rewrite H5.
    + rewrite H3. unfold int64_ok in *. lia.
    + rewrite H5, H3 in I4. split_and!; lia.
Qed.

(** X3. A session ends, and it is frugal: it sends at most one request
    more than it makes waits, makes as many waits as it takes retries, and
    takes no more retries than the budget allows, so at most
    [MaxRetries - retryCtr + 1] requests in all (for [int] retry parameters
    whose counter is not above the maximum). *)
Theorem session_request_bound (ctx : Context) (u : string)
    (opts : list (option DownloadOpt)) (w : world) (d : downloader) :
  configure u opts = Some d ->
  int64_ok (MaxRetries (retryParameters d)) ->
  int64_ok (retryCtr (retryParameters d)) ->
  retryCtr (retryParameters d) <= MaxRetries (retryParameters d) ->
  exists o,
    DownloadURL ctx u opts w = Returned o
    /\ Z.of_nat (timers_armed (out_w o)) - Z.of_nat (timers_armed w)
       = retryCtr (retryParameters (out_d o)) - retryCtr (retryParameters d)
    /\ retryCtr (retryParameters (out_d o))
       <= MaxRetries (retryParameters d)
    /\ Z.of_nat (requests_sent (out_w o)) - Z.of_nat (requests_sent w)
       <= Z.of_nat (timers_armed (out_w o)) - Z.of_nat (timers_armed w) + 1
    /\ Z.of_nat (requests_sent (out_w o)) - Z.of_nat (requests_sent w)
       <= MaxRetries (retryParameters d) - retryCtr (retryParameters d) + 1.
Proof.
  intros Hcfg HM Hc Hle. unfold DownloadURL. rewrite Hcfg. unfold run.
  destruct (run_loop_returns ctx (loop_fuel (retryParameters d)) d w HM Hc)
    as [o Hloop]; [unfold loop_fuel; lia |].
  rewrite Hloop.
  destruct (run_loop_counts ctx _ d w o HM Hc Hloop) as (H1 & H2 & H3 & H4).
  specialize (H4 Hle).
  destruct (out_err o) as [err |].
  - exists o. split_and!; [reflexivity | lia ..].
  - destruct (run_finals (finalFuncs (out_d o)) 0 (out_w o)) as [r w1] eqn:Hf.
    destruct (run_finals_spec _ _ _ _ _ Hf) as (_ & _ & n & Ht & _).
    destruct (counts_of_finals _ _ _ _ Ht) as [Hr Htm].
    eexists. split; [reflexivity |]. simpl. rewrite Hr, Htm.
    split_and!; lia.
Qed.

(** ** What goes through the chain *)

Lemma fed_refl (ws : list sink) (d : downloader) (w : world) :
  uint64_ok (Count (writer d)) -> fed ws [] d w d w.
Proof.
  intros Hc. unfold fed. simpl. rewrite Z.add_0_r, app_nil_r.
  rewrite uint64_wrap_id by exact Hc. split_and!; try done.
  intros h _. destruct (heap w !! h) as [x |]; simpl; [| done].
  now rewrite hash_Write_nil.
Qed.

Lemma fed_trans (ws : list sink) (e1 e2 : bytes) (d d1 d2 : downloader)
    (w w1 w2 : world) :
  fed ws e1 d w d1 w1 -> fed ws e2 d1 w1 d2 w2 ->
  fed ws (e1 ++ e2) d w d2 w2.
Proof.
  intros (A1 & A2 & A3 & A4 & A5) (B1 & B2 & B3 & B4 & B5).
  unfold fed. split_and!.
  - congruence.
  - rewrite B2, A2, length_app, Nat2Z.inj_add. unfold uint64_wrap.
    rewrite Zplus_mod_idemp_l. f_equal. lia.
  - intros H. rewrite (B3 H), (A3 H). now rewrite app_assoc.
  - intros h H. rewrite (B4 h H), (A4 h H).
    destruct (heap w !! h) as [x |]; simpl; [| done].
    now rewrite hash_Write_app.
  - intros h H. rewrite (B5 h H). now apply A5.
Qed.

Lemma fed_write (d : downloader) (w : world) (bs : bytes) :
  fed (wc_writer (writer d)) bs d w
    (set_writer
       {| wc_writer := wc_writer (writer d);
          wc_count := uint64_wrap (Count (writer d)
                                   + Z.of_nat (length bs)) |} d)
    (multi_write (wc_writer (writer d)) bs w).
Proof.
  unfold fed. simpl. split_and!; try done.
  - intros H. now rewrite multi_write_dest, H, written_once.
  - intros h H. now rewrite multi_write_heap, H, written_once.
  - intros h H. rewrite multi_write_heap, H.
    destruct (heap w !! h) as [x |]; simpl; [| done].
    unfold written. simpl. now rewrite hash_Write_nil.
Qed.

(** A change of the downloader and of the log that leaves the counter, the
    destination and the hashers alone. *)
Lemma fed_frame (ws : list sink) (e : bytes) (d d1 d2 : downloader)
    (w w1 w2 : world) :
  fed ws e d w d1 w1 ->
  writer d2 = writer d1 -> dest w2 = dest w1 -> heap w2 = heap w1 ->
  fed ws e d w d2 w2.
Proof.
  intros (A1 & A2 & A3 & A4 & A5) Hw Hd Hh. unfold fed.
  rewrite Hw, Hd, Hh. split_and!; done.
Qed.

Lemma loop_body_fed (ctx : Context) (d : downloader) (w : world) :
  uint64_ok (Count (writer d)) ->
  exists extra,
    match loop_body ctx d w with
    | inl o => fed (wc_writer (writer d)) extra d w (out_d o) (out_w o)
    | inr (d3, w3) => fed (wc_writer (writer d)) extra d w d3 w3
    end.
Proof.
  intros Hc.
  destruct (loop_body_inv ctx d w)
    as [(e & d1 & w1 & Hin & ->) | (body & d1 & w1 & Hin & Hbody)];
    destruct (runInner_frame d d1 w w1 _ Hin)
      as ((cl & -> & _) & Hd1 & Hh1 & _).
  - exists []. simpl.
    apply (fed_frame _ _ d d _ w w); [now apply fed_refl | done ..].
  - exists (delivered body). cbv zeta in Hbody. rewrite Hbody. clear Hbody.
    pose proof (fed_write d w1 (delivered body)) as Hf.
    assert (Hf' : fed (wc_writer (writer d)) (delivered body) d w
                    (set_writer
                       {| wc_writer := wc_writer (writer d);
                          wc_count :=
                            uint64_wrap
                              (Count (writer d)
                               + Z.of_nat (length (delivered body))) |} d)
                    (multi_write (wc_writer (writer d)) (delivered body) w1)).
    { destruct Hf as (F1 & F2 & F3 & F4 & F5). unfold fed.
      rewrite <- Hd1, <- Hh1. split_and!; done. }
    destruct (ending body) as [e |].
    + destruct (wait_err _);
        (eapply fed_frame; [exact Hf' | reflexivity | ..]);
        destruct (wait_timer _); reflexivity.
    + eapply fed_frame; [exact Hf' | reflexivity ..].
Qed.

Lemma fed_count_ok (ws : list sink) (e : bytes) (d d1 : downloader)
    (w w1 : world) :
  fed ws e d w d1 w1 -> uint64_ok (Count (writer d1)).
Proof.
  intros (_ & -> & _). unfold uint64_ok, uint64_wrap.
  apply Z.mod_pos_bound. lia.
Qed.

Lemma run_loop_fed (ctx : Context) (fuel : nat) (d : downloader) (w : world)
    (o : outcome) :
  uint64_ok (Count (writer d)) ->
  run_loop fuel ctx d w = Some o ->
  exists extra, fed (wc_writer (writer d)) extra d w (out_d o) (out_w o).
Proof.
  revert d w. induction fuel as [| fuel IH]; intros d w Hc; [discriminate |].
  simpl. destruct (loop_body_fed ctx d w Hc) as [e1 Hb].
  destruct (loop_body ctx d w) as [o1 | [d3 w3]].
  - intros [= <-]. eauto.
  - intros Hrun.
    destruct (IH d3 w3 (fed_count_ok _ _ _ _ _ _ Hb) Hrun) as [e2 H2].
    exists (e1 ++ e2). apply (fed_trans _ _ _ _ d3 _ _ w3); [exact Hb |].
    destruct Hb as (Hw & _). now rewrite <- Hw.
Qed.

Lemma run_fed (ctx : Context) (d : downloader) (w : world) (o : outcome) :
  uint64_ok (Count (writer d)) ->
  run ctx d w = Some o ->
  exists extra, fed (wc_writer (writer d)) extra d w (out_d o) (out_w o).
Proof.
  intros Hc. unfold run.
  destruct (run_loop _ ctx d w) as [o1 |] eqn:Hloop; [| discriminate].
  destruct (run_loop_fed ctx _ d w o1 Hc Hloop) as [extra Hf].
  destruct (out_err o1); [intros [= <-]; eauto |].
  destruct (run_finals _ _ _) as [r w1] eqn:Hfin. intros [= <-].
  destruct (run_finals_spec _ _ _ _ _ Hfin) as (Hd & Hh & _).
  exists extra. simpl. eapply fed_frame; [exact Hf | done ..].
Qed.

(** X4. Whatever the server does, the bytes a session appends to the
    destination are the bytes it feeds, in the same order and once, to
    every hasher attached once, and their number is what the counter
    reads; a hasher that is not attached is not touched. *)
Theorem session_feeds_hashers_what_it_writes (ctx : Context) (u : string)
    (opts : list (option DownloadOpt)) (w : world) (o : outcome) :
  DownloadURL ctx u opts w = Returned o ->
  exists extra,
    dest (out_w o) = dest w ++ extra
    /\ Count (writer (out_d o)) = uint64_wrap (Z.of_nat (length extra))
    /\ (forall h : nat,
          occurrences h (attached_hashers opts) = 1%nat ->
          heap (out_w o) !! h = hash_Write extra <$> heap w !! h)
    /\ (forall h : nat,
          occurrences h (attached_hashers opts) = 0%nat ->
          heap (out_w o) !! h = heap w !! h).
Proof.
  unfold DownloadURL.
  destruct (configure u opts) as [d |] eqn:Hcfg; [| discriminate].
  destruct (run ctx d w) as [o1 |] eqn:Hrun; [| discriminate].
  intros [= <-].
  destruct (configure_spec u opts d Hcfg) as (Hchain & Hcount & _).
  destruct (run_fed ctx d w o1) as [extra (_ & F2 & F3 & F4 & F5)];
    [rewrite Hcount; unfold uint64_ok; lia | exact Hrun |].
  exists extra. rewrite Hcount in F2. simpl in F2.
  rewrite Hchain in F3, F4, F5. split_and!.
  - apply F3. unfold occurrences. rewrite filter_cons_True by reflexivity.
    simpl. f_equal. apply occurrences_Dest.
  - exact F2.
  - intros h H. apply F4.
    unfold occurrences. rewrite filter_cons_False by discriminate.
    fold (occurrences (HashSink h) (HashSink <$> attached_hashers opts)).
    now rewrite occurrences_HashSink.
  - intros h H. apply F5.
    unfold occurrences. rewrite filter_cons_False by discriminate.
    fold (occurrences (HashSink h) (HashSink <$> attached_hashers opts)).
    now rewrite occurrences_HashSink.
Qed.

(** X5. Integrity, whatever the server does: when a session with an
    expected-hash check on a fresh hasher, attached once, returns [nil],
    the digest of the very bytes it appended to the destination is the
    expected one. *)
Theorem nil_result_means_digest_matches (ctx : Context) (u : string)
    (opts : list (option DownloadOpt)) (w : world) (o : outcome)
    (h : nat) (h0 : Hasher) (expected : bytes) :
  Some (WithExpectedHash h expected) ∈ opts ->
  occurrences h (attached_hashers opts) = 1%nat ->
  heap w !! h = Some h0 -> absorbed h0 = [] ->
  DownloadURL ctx u opts w = Returned o ->
  out_err o = None ->
  exists extra,
    dest (out_w o) = dest w ++ extra /\ digest h0 extra = expected.
Proof.
  intros Hin Honce Hh0 Hfresh Hret Herr.
  unfold DownloadURL in Hret.
  destruct (configure u opts) as [d |] eqn:Hcfg; [| discriminate].
  destruct (run ctx d w) as [o1 |] eqn:Hrun; [| discriminate].
  injection Hret as ->.
  destruct (configure_spec u opts d Hcfg) as (Hchain & Hcount & _ & Hfin).
  destruct (run_fed ctx d w o) as [extra (_ & _ & F3 & F4 & _)];
    [rewrite Hcount; unfold uint64_ok; lia | exact Hrun |].
  rewrite Hchain in F3, F4.
  destruct (configured_writes_once h (attached_hashers opts) Honce)
    as [HD HH].
  exists extra. split; [now apply F3 |].
  specialize (F4 h HH). rewrite Hh0 in F4. simpl in F4.
  unfold run in Hrun.
  destruct (run_loop _ ctx d w) as [o2 |] eqn:Hloop; [| discriminate].
  pose proof (run_loop_finalFuncs ctx _ d w o2 Hloop) as Hff.
  destruct (out_err o2) as [err |] eqn:Herr2.
  { injection Hrun as <-. congruence. }
  destruct (run_finals (finalFuncs (out_d o2)) 0 (out_w o2)) as [r w1] eqn:Hf.
  injection Hrun as <-. simpl in Herr, F4. subst r.
  destruct (run_finals_spec _ _ _ _ _ Hf) as (_ & Hh1 & n & _ & _ & Hall).
  specialize (Hfin h expected Hin). rewrite <- Hff in Hfin.
  specialize (Hall _ Hfin). rewrite expectedHashCheck_spec in Hall.
  case_decide as Heq; [| discriminate].
  rewrite <- Hh1 in Heq.
  rewrite (lookup_total_correct _ _ _ F4) in Heq.
  unfold hash_Sum, hash_Write in Heq. simpl in Heq.
  now rewrite Hfresh in Heq.
Qed.

(** ** The errors of a session *)

Lemma runInner_error_class (d d1 : downloader) (w w1 : world) (e : error) :
  runInner d w = (inl e, d1, w1) ->
  is_non_retryable e = true
  \/ (exists err,
         e = Errorfw "do request: %w" [] err
         /\ httpClient d (requests_sent w) (request_of d) = inl err)
  \/ (e = Errorf "bad gateway" []
      /\ exists resp,
           httpClient d (requests_sent w) (request_of d) = inr resp
           /\ StatusCode resp = StatusBadGateway).
Proof.
  destruct (NewRequest_err (url d)) as [err |] eqn:Hreq.
  { rewrite (runInner_bad_url d w err Hreq). intros [= <- _ _]. now left. }
  rewrite (runInner_sent d w Hreq). cbv zeta.
  destruct (httpClient d _ _) as [err | resp] eqn:Hdo.
  { intros [= <- _ _]. right. left. eauto. }
  destruct (Z.eqb_spec (StatusCode resp) StatusBadGateway) as [Hbg | _].
  { intros [= <- _ _]. right. right. eauto. }
  unfold checked_range.
  repeat case_match; intros [= <- _ _]; try discriminate; now left.
Qed.

Lemma loop_body_error_class (ctx : Context) (d : downloader) (w : world)
    (o : outcome) (e : error) :
  loop_body ctx d w = inl o -> out_err o = Some e -> transfer_error e.
Proof.
  intros Hb He. unfold transfer_error.
  destruct (loop_body_inv ctx d w)
    as [(e1 & d1 & w1 & Hin & Heq) | (body & d1 & w1 & Hin & Hbody)].
  - rewrite Heq in Hb. injection Hb as <-. simpl in He. injection He as <-.
    destruct (runInner_error_class d d1 w w1 e1 Hin)
      as [H | [(err & -> & _) | [-> _]]]; eauto 6.
  - cbv zeta in Hbody. rewrite Hb in Hbody.
    destruct (ending body) as [e1 |].
    2:{ injection Hbody as ->. discriminate. }
    match type of Hbody with
    | context [Wait ?p ?c ?pos] =>
        destruct (Z_le_gt_dec (MaxRetries p) (retryCtr p)) as [Hge | Hgt];
          [rewrite (Wait_exceeded p c pos Hge) in Hbody
          | rewrite (Wait_armed p c pos ltac:(lia)) in Hbody;
            destruct c as [c1 |]]
    end; simpl in Hbody; try discriminate;
      injection Hbody as ->; simpl in He; injection He as <-; eauto 8.
Qed.

Lemma run_loop_error_class (ctx : Context) (fuel : nat) (d : downloader)
    (w : world) (o : outcome) (e : error) :
  run_loop fuel ctx d w = Some o -> out_err o = Some e -> transfer_error e.
Proof.
  revert d w. induction fuel as [| fuel IH]; intros d w; [discriminate |].
  simpl. destruct (loop_body ctx d w) as [o1 | [d3 w3]] eqn:Hb.
  - intros [= <-] He. now apply (loop_body_error_class ctx d w o1).
  - apply IH.
Qed.

Lemma transfer_error_not_mismatch (expected given : bytes) :
  ~ transfer_error (ErrHashMismatch expected given).
Proof.
  intros [H | [(err & H) | [H | [H | (c & H)]]]]; discriminate.
Qed.

Lemma registered_checks (opts : list (option DownloadOpt)) (f : FinalFunc) :
  f ∈ mjoin (registered <$> opts) ->
  exists h expected,
    f = expectedHashCheck h expected
    /\ Some (WithExpectedHash h expected) ∈ opts.
Proof.
  induction opts as [| opt rest IH]; simpl; [intros H; inversion H |].
  intros H. apply elem_of_app in H as [H | H].
  - destruct opt as [[] |]; simpl in H; try (inversion H; fail).
    apply list_elem_of_singleton in H as ->.
    eexists _, _. split; [reflexivity | left].
  - destruct (IH H) as (h & expected & -> & Hin).
    eexists _, _. split; [reflexivity | now right].
Qed.

Lemma configure_finalFuncs (u : string) (opts : list (option DownloadOpt))
    (d : downloader) :
  configure u opts = Some d -> finalFuncs d = mjoin (registered <$> opts).
Proof.
  unfold configure. intros H.
  destruct (apply_opts opts (new_downloader u)) as [d1 |] eqn:Hopts;
    [| discriminate].
  simpl in H. injection H as <-. simpl.
  now rewrite (apply_opts_finalFuncs_order _ _ _ Hopts).
Qed.

(** X6. The errors of a session: an error [DownloadURL] returns is an error
    of the transfer (non-retryable, the wrapped error of the request, bad
    gateway, budget spent, or the context's error) or the
    [ErrHashMismatch] of one of its [WithExpectedHash] options, carrying
    the expected digest of that option and the differing digest its hasher
    has at the end; and it is never both. *)
Theorem session_error_classes (ctx : Context) (u : string)
    (opts : list (option DownloadOpt)) (w : world) (o : outcome)
    (e : error) :
  DownloadURL ctx u opts w = Returned o ->
  out_err o = Some e ->
  (transfer_error e /\ forall x g, e <> ErrHashMismatch x g)
  \/ (exists h expected,
         Some (WithExpectedHash h expected) ∈ opts
         /\ e = ErrHashMismatch expected (hash_Sum (heap (out_w o) !!! h))
         /\ hash_Sum (heap (out_w o) !!! h) <> expected).
Proof.
  unfold DownloadURL.
  destruct (configure u opts) as [d |] eqn:Hcfg; [| discriminate].
  destruct (run ctx d w) as [o1 |] eqn:Hrun; [| discriminate].
  intros [= <-] He. unfold run in Hrun.
  destruct (run_loop _ ctx d w) as [o2 |] eqn:Hloop; [| discriminate].
  destruct (out_err o2) as [err |] eqn:Herr2.
  - injection Hrun as <-. left.
    assert (Ht : transfer_error e).
    { apply (run_loop_error_class ctx _ d w o2 e Hloop). congruence. }
    split; [exact Ht |]. intros x g ->.
    now apply (transfer_error_not_mismatch x g).
  - right.
    pose proof (run_loop_finalFuncs ctx _ d w o2 Hloop) as Hff.
    destruct (run_finals (finalFuncs (out_d o2)) 0 (out_w o2))
      as [r w1] eqn:Hf.
    injection Hrun as <-. simpl in He. subst r.
    destruct (run_finals_spec _ _ _ _ _ Hf)
      as (_ & Hh1 & n & _ & k & f & _ & Hk & Hfe & _).
    rewrite Hff, (configure_finalFuncs u opts d Hcfg) in Hk.
    apply list_elem_of_lookup_2 in Hk.
    destruct (registered_checks opts f Hk) as (h & expected & -> & Hin).
    exists h, expected. split; [exact Hin |].
    rewrite expectedHashCheck_spec in Hfe. simpl. rewrite Hh1.
    case_decide as Hd; [discriminate |].
    injection Hfe as <-. split; [reflexivity | exact Hd].
Qed.

(** X7. A hash mismatch is reported only once the transfer is complete:
    with an honest server, a session that ends in [ErrHashMismatch] has
    appended the whole resource to the destination and fed it to the
    hasher attached once, and the error carries the expected digest of one
    of the options and the digest its hasher then has. *)
Theorem mismatch_only_after_transfer (data : bytes) (ctx : Context)
    (u : string) (opts : list (option DownloadOpt)) (w : world)
    (d : downloader) (h : nat) (h0 : Hasher) (o : outcome)
    (expected given : bytes) :
  Z.of_nat (length data) < 2 ^ 63 ->
  configure u opts = Some d ->
  honest_client data (httpClient d) ->
  occurrences h (attached_hashers opts) = 1%nat ->
  heap w !! h = Some h0 ->
  DownloadURL ctx u opts w = Returned o ->
  out_err o = Some (ErrHashMismatch expected given) ->
  dest (out_w o) = dest w ++ data
  /\ heap (out_w o) !!! h = hash_Write data h0
  /\ given <> expected
  /\ exists h1,
       Some (WithExpectedHash h1 expected) ∈ opts
       /\ given = hash_Sum (heap (out_w o) !!! h1).
Proof.
  intros Hlen Hcfg Hhon Honce Hh0 Hret Herr.
  destruct (configure_spec u opts d Hcfg) as (Hchain & Hcount & Hcl & _).
  unfold DownloadURL in Hret. rewrite Hcfg in Hret.
  destruct (run ctx d w) as [o1 |] eqn:Hrun; [| discriminate].
  injection Hret as ->. unfold run in Hrun.
  destruct (run_loop _ ctx d w) as [o2 |] eqn:Hloop; [| discriminate].
  destruct (out_err o2) as [err |] eqn:Herr2.
  { injection Hrun as <-. exfalso.
    apply (transfer_error_not_mismatch expected given).
    apply (run_loop_error_class ctx _ d w o2 _ Hloop). congruence. }
  assert (Hcm0 : committed data (dest w) h h0 0 d w).
  { unfold committed. simpl. rewrite app_nil_r, hash_Write_nil.
    split_and!; [lia | exact Hcount | done | exact Hh0 | done]. }
  assert (Hwo : writes_once h (wc_writer (writer d))).
  { rewrite Hchain. now apply configured_writes_once. }
  pose proof (run_loop_committed data (dest w) h h0 ctx _ d w 0 o2
                Hlen Hhon Hwo Hcm0 Hloop Herr2)
    as (_ & _ & Hd & Hh & _).
  rewrite firstn_all in Hd, Hh.
  pose proof (run_loop_finalFuncs ctx _ d w o2 Hloop) as Hff.
  destruct (run_finals (finalFuncs (out_d o2)) 0 (out_w o2)) as [r w1] eqn:Hf.
  injection Hrun as <-. simpl in Herr. subst r.
  destruct (run_finals_spec _ _ _ _ _ Hf)
    as (Hd1 & Hh1 & n & _ & k & f & _ & Hk & Hfe & _).
  rewrite Hff, (configure_finalFuncs u opts d Hcfg) in Hk.
  apply list_elem_of_lookup_2 in Hk.
  destruct (registered_checks opts f Hk) as (h1 & x & -> & Hin).
  rewrite expectedHashCheck_spec in Hfe.
  case_decide as Hne; [discriminate |]. injection Hfe as -> <-.
  simpl. rewrite Hd1, Hh1. split_and!.
  - exact Hd.
  - now apply lookup_total_correct.
  - exact Hne.
  - exists h1. split; [exact Hin | reflexivity].
Qed.

(** ** The recorded content length *)

Lemma loop_body_contentLength (ctx : Context) (d : downloader) (w : world) :
  contentLength d <> 0 ->
  match loop_body ctx d w with
  | inl o => contentLength (out_d o) = contentLength d
  | inr (d3, _) => contentLength d3 = contentLength d
  end.
Proof.
  intros Hcl.
  destruct (loop_body_inv ctx d w)
    as [(e & d1 & w1 & Hin & ->) | (body & d1 & w1 & Hin & Hbody)];
    destruct (runInner_frame d d1 w w1 _ Hin) as ((cl & -> & Hsame) & _);
    specialize (Hsame Hcl); subst cl.
  - reflexivity.
  - cbv zeta in Hbody. rewrite Hbody.
    destruct (ending body); [| reflexivity].
    destruct (wait_err _); reflexivity.
Qed.

(** X8. The content length is fixed once known: from a loop state with a
    recorded (non-zero) content length, every later loop state and the
    outcome of [run] have that same content length, whatever lengths the
    later responses declare. *)
Theorem content_length_is_fixed (ctx : Context) (d : downloader) (w : world) :
  contentLength d <> 0 ->
  (forall d1 w1, loop_reaches ctx d w d1 w1 ->
                 contentLength d1 = contentLength d)
  /\ (forall o, run ctx d w = Some o ->
                contentLength (out_d o) = contentLength d).
Proof.
  intros Hcl. split.
  - intros d1 w1 Hr. induction Hr as [| d w d1 w1 d2 w2 Hb _ IH]; [done |].
    pose proof (loop_body_contentLength ctx d w Hcl) as H.
    rewrite Hb in H. rewrite IH by congruence. exact H.
  - intros o. unfold run.
    assert (Hloop : forall fuel d w o1,
               contentLength d <> 0 ->
               run_loop fuel ctx d w = Some o1 ->
               contentLength (out_d o1) = contentLength d).
    { clear. intros fuel. induction fuel as [| fuel IH]; intros d w o1 Hcl;
        [discriminate |].
      simpl. pose proof (loop_body_contentLength ctx d w Hcl) as H.
      destruct (loop_body ctx d w) as [o2 | [d3 w3]].
      - now intros [= <-].
      - intros Hrun. rewrite (IH d3 w3 o1) by congruence. exact H. }
    destruct (run_loop _ ctx d w) as [o1 |] eqn:Hl; [| discriminate].
    specialize (Hloop _ _ _ _ Hcl Hl).
    destruct (out_err o1); [now intros [= <-] |].
    destruct (run_finals _ _ _). now intros [= <-].
Qed.

(** ** Options that set a field *)

Lemma set_as_apply (o : DownloadOpt) (d : downloader) :
  set_as o (apply_opt o d).
Proof. destruct o; simpl; done. Qed.

Lemma set_as_kept (o1 o : DownloadOpt) (d : downloader) :
  replaces o1 o = false -> set_as o d -> set_as o (apply_opt o1 d).
Proof. destruct o1, o; simpl; done. Qed.

Lemma set_as_apply_opts (o : DownloadOpt) (opts : list (option DownloadOpt))
    (d d1 : downloader) :
  (forall o1, Some o1 ∈ opts -> replaces o1 o = false) ->
  apply_opts opts d = Some d1 -> set_as o d -> set_as o d1.
Proof.
  revert d. induction opts as [| opt rest IH]; intros d Hno; simpl.
  - now intros [= <-].
  - destruct opt as [o1 |]; simpl.
    + intros H Hs. apply (IH (apply_opt o1 d)); [| exact H |].
      * intros o2 Hin. apply Hno. now right.
      * apply set_as_kept; [| exact Hs]. apply Hno. left.
    + apply IH. intros o2 Hin. apply Hno. now right.
Qed.

Lemma set_as_set_writer (o : DownloadOpt) (c : WriterCounter)
    (d : downloader) :
  set_as o d -> set_as o (set_writer c d).
Proof. destruct o; simpl; done. Qed.

(** X9. Options that set a field replace, they do not merge: the field an
    option sets holds what the last such option of the list gave it (the
    headers of an earlier [WithHeaders] are dropped whole), and a field no
    option sets holds its default: the default client, the default retry
    parameters, no headers. *)
Theorem later_option_replaces (u : string)
    (opts : list (option DownloadOpt)) (d : downloader) :
  configure u opts = Some d ->
  (forall opts1 o opts2,
      opts = opts1 ++ Some o :: opts2 ->
      (forall o1, Some o1 ∈ opts2 -> replaces o1 o = false) ->
      set_as o d)
  /\ (forall o,
        set_as o (new_downloader u) ->
        (forall o1, Some o1 ∈ opts -> replaces o1 o = false) ->
        set_as o d).
Proof.
  unfold configure. intros H.
  destruct (apply_opts opts (new_downloader u)) as [d1 |] eqn:Hopts;
    [| discriminate].
  simpl in H. injection H as <-. split.
  - intros opts1 o opts2 -> Hno. apply set_as_set_writer.
    rewrite apply_opts_app in Hopts.
    destruct (apply_opts opts1 (new_downloader u)) as [d0 |];
      [| discriminate].
    simpl in Hopts.
    apply (set_as_apply_opts o opts2 (apply_opt o d0) d1 Hno Hopts).
    apply set_as_apply.
  - intros o Hdef Hno. apply set_as_set_writer.
    exact (set_as_apply_opts o opts _ d1 Hno Hopts Hdef).
Qed.

(** ** Progress against a server that honours range requests *)

Lemma cooperative_runInner (data : bytes) (m : nat) (d : downloader)
    (w : world) (k : nat) :
  Z.of_nat (length data) < 2 ^ 63 ->
  cooperative data m (httpClient d) ->
  NewRequest_err (url d) = None ->
  configured_header canon (headers d) !! canon rangeHeader = None ->
  Count (writer d) = Z.of_nat k ->
  (k = 0%nat /\ contentLength d = 0
   \/ (0 < k < length data)%nat
      /\ contentLength d = Z.of_nat (length data)) ->
  exists body,
    runInner d w
    = (inr body, set_contentLength (Z.of_nat (length data)) d,
       log (EvRequest (request_of d)) w)
    /\ serves data (Z.of_nat k) body
    /\ cut_late data m (Z.of_nat k) body.
Proof.
  intros Hlen Hcoop Hreq Hnorange Hcount Hk.
  rewrite (runInner_sent d w Hreq). cbv zeta.
  destruct (Hcoop (requests_sent w) (request_of d)) as (resp & Hdo & Hresp).
  rewrite Hdo. exists (resp_Body resp).
  destruct Hk as [[-> Hcl] | [Hk Hcl]].
  - assert (Hhdr : req_header (request_of d) !! canon rangeHeader = None).
    { unfold request_of. simpl. rewrite Hcount. simpl. exact Hnorange. }
    rewrite Hhdr in Hresp. destruct Hresp as (Hst & Hclr & Hs & Hc).
    rewrite Hst, Hcl, Hclr. simpl. split_and!; done.
  - assert (Hhdr : req_header (request_of d) !! canon rangeHeader
                   = Some (Sprintf "bytes=%d-" (Z.of_nat k))).
    { unfold request_of. simpl. rewrite Hcount.
      destruct (Z.ltb_spec 0 (Z.of_nat k)) as [_ | ?]; [| lia].
      unfold Header_Set. apply lookup_insert_eq. }
    rewrite Hhdr in Hresp.
    destruct (Hresp (Z.of_nat k) ltac:(lia) eq_refl)
      as (Hst & Hscan & Hs & Hc).
    rewrite Hst. change (StatusPartialContent =? StatusBadGateway) with false.
    destruct (Z.eqb_spec (contentLength d) 0) as [? | _]; [lia |].
    rewrite Z.eqb_refl. cbn [negb].
    unfold checked_range. rewrite Hscan, Hcount, Hcl.
    rewrite uint64_wrap_id by (unfold uint64_ok; lia).
    rewrite int64_wrap_id by (unfold int64_ok; lia).
    rewrite !Z.eqb_refl. cbn [negb].
    rewrite <- Hcl, set_contentLength_same. split_and!; done.
Qed.

Lemma cooperative_loop (data dest0 : bytes) (m : nat) (ctx : Context)
    (fuel : nat) (d : downloader) (w : world) (k : nat) :
  Z.of_nat (length data) < 2 ^ 63 ->
  (0 < m)%nat ->
  (forall n, ctx n = None) ->
  cooperative data m (httpClient d) ->
  NewRequest_err (url d) = None ->
  configured_header canon (headers d) !! canon rangeHeader = None ->
  occurrences Dest (wc_writer (writer d)) = 1%nat ->
  Count (writer d) = Z.of_nat k ->
  (k = 0%nat /\ contentLength d = 0
   \/ (0 < k < length data)%nat
      /\ contentLength d = Z.of_nat (length data)) ->
  dest w = dest0 ++ take k data ->
  int64_ok (MaxRetries (retryParameters d)) ->
  int64_ok (retryCtr (retryParameters d)) ->
  Z.of_nat (length data - k)
  <= Z.of_nat m
     * (MaxRetries (retryParameters d) - retryCtr (retryParameters d) + 1) ->
  (Z.to_nat (MaxRetries (retryParameters d) - retryCtr (retryParameters d))
   < fuel)%nat ->
  exists o,
    run_loop fuel ctx d w = Some o
    /\ out_err o = None
    /\ dest (out_w o) = dest0 ++ data
    /\ Count (writer (out_d o)) = Z.of_nat (length data).
Proof.
  intros Hlen Hm Hctx. revert d w k.
  induction fuel as [| fuel IH];
    intros d w k Hcoop Hreq Hnor Hocc Hcount Hk Hdest HM Hc Hbud Hfuel;
    [lia |].
  destruct (cooperative_runInner data m d w k Hlen Hcoop Hreq Hnor Hcount Hk)
    as (body & Hin & [Hpre Hall] & Hcut).
  rewrite Nat2Z.id in Hpre, Hall.
  simpl.
  destruct (loop_body_inv ctx d w)
    as [(e & d1 & w1 & Hin' & _) | (body' & d1 & w1 & Hin' & Hbody)];
    [congruence |].
  rewrite Hin in Hin'. injection Hin' as <- <- <-.
  cbv zeta in Hbody. rewrite Hbody. clear Hbody.
  set (n := length (delivered body)).
  assert (Hn : (k + n <= length data)%nat).
  { apply prefix_length in Hpre. rewrite length_drop in Hpre. lia. }
  assert (Htake : take k data ++ delivered body = take (k + n) data).
  { rewrite (prefix_take_length _ _ Hpre). apply take_take_drop. }
  assert (Hcnt : uint64_wrap (Z.of_nat k + Z.of_nat n) = Z.of_nat (k + n)).
  { rewrite uint64_wrap_id by (unfold uint64_ok; lia). lia. }
  destruct (ending body) as [e |] eqn:Hend.
  - destruct (Hcut ltac:(congruence)) as [Hmn Hnlt]. fold n in Hmn, Hnlt.
    assert (Hlt : retryCtr (retryParameters d)
                  < MaxRetries (retryParameters d)).
    { destruct (Z_le_gt_dec (MaxRetries (retryParameters d))
                  (retryCtr (retryParameters d))) as [Hge | ?]; [| lia].
      exfalso. nia. }
    cbn [retryParameters set_writer set_contentLength writer Count wc_count].
    rewrite Hctx, (Wait_armed _ None _ Hlt). cbv zeta.
    cbn [wait_err wait_timer wait_params fmap option_fmap option_map].
    apply (IH _ _ (k + n)%nat); simpl; try assumption.
    + fold (Count (writer d)). rewrite Hcount. exact Hcnt.
    + right. split; [lia | reflexivity].
    + rewrite multi_write_dest, Hocc, written_once. simpl.
      now rewrite Hdest, <- app_assoc, Htake.
    + apply int64_wrap_ok.
    + rewrite int64_wrap_id by (unfold int64_ok in *; lia).
      assert (Z.of_nat (length data - (k + n))
              = Z.of_nat (length data - k) - Z.of_nat n) as -> by lia.
      nia.
    + rewrite int64_wrap_id by (unfold int64_ok in *; lia). lia.
  - specialize (Hall eq_refl).
    assert (Hkn : (k + n)%nat = length data).
    { subst n. rewrite Hall, length_drop. lia. }
    eexists. split; [reflexivity |]. simpl. split_and!.
    + reflexivity.
    + rewrite multi_write_dest, Hocc, written_once. simpl.
      now rewrite Hdest, <- app_assoc, Htake, Hkn, firstn_all.
    + fold (Count (writer d)). rewrite Hcount, Hcnt. now rewrite Hkn.
Qed.

Lemma apply_opts_url (opts : list (option DownloadOpt)) (d d1 : downloader) :
  apply_opts opts d = Some d1 -> url d1 = url d.
Proof.
  revert d. induction opts as [| opt rest IH]; intros d; simpl.
  - now intros [= <-].
  - destruct opt as [f |]; simpl; [| apply IH].
    intros H. rewrite (IH _ H). now destruct f.
Qed.

(** X10. Progress: against a server that honours range requests and
    delivers at least [m] bytes before each cut, with a context that is
    never done, a download of at most [m * (MaxRetries + 1)] bytes ends
    with the whole resource appended to the destination; the transfer does
    not fail, only a digest check can. *)
Theorem cooperative_download_completes (data : bytes) (m : nat)
    (ctx : Context) (u : string) (opts : list (option DownloadOpt))
    (w : world) (d : downloader) :
  Z.of_nat (length data) < 2 ^ 63 ->
  (0 < m)%nat ->
  (forall n, ctx n = None) ->
  configure u opts = Some d ->
  cooperative data m (httpClient d) ->
  NewRequest_err u = None ->
  configured_header canon (headers d) !! canon rangeHeader = None ->
  int64_ok (MaxRetries (retryParameters d)) ->
  retryCtr (retryParameters d) = 0 ->
  Z.of_nat (length data)
  <= Z.of_nat m * (MaxRetries (retryParameters d) + 1) ->
  exists o,
    DownloadURL ctx u opts w = Returned o
    /\ dest (out_w o) = dest w ++ data
    /\ Count (writer (out_d o)) = Z.of_nat (length data)
    /\ (forall e, out_err o = Some e ->
                  exists expected given, e = ErrHashMismatch expected given)
    /\ ((forall h expected, Some (WithExpectedHash h expected) ∉ opts) ->
        out_err o = None).
Proof.
  intros Hlen Hm Hctx Hcfg Hcoop Hreq Hnor HM Hc0 Hbud.
  destruct (configure_spec u opts d Hcfg) as (Hchain & Hcount & Hcl & _).
  assert (Hurl : url d = u).
  { unfold configure in Hcfg.
    destruct (apply_opts opts (new_downloader u)) as [d1 |] eqn:Hopts;
      [| discriminate].
    simpl in Hcfg. injection Hcfg as <-. simpl.
    now rewrite (apply_opts_url _ _ _ Hopts). }
  assert (Hocc : occurrences Dest (wc_writer (writer d)) = 1%nat).
  { rewrite Hchain. unfold occurrences.
    rewrite filter_cons_True by reflexivity. simpl. f_equal.
    apply occurrences_Dest. }
  destruct (cooperative_loop data (dest w) m ctx
              (loop_fuel (retryParameters d)) d w 0 Hlen Hm Hctx Hcoop)
    as (o & Hloop & Herr & Hdest & Hcnt).
  - now rewrite Hurl.
  - exact Hnor.
  - exact Hocc.
  - exact Hcount.
  - now left.
  - simpl. now rewrite app_nil_r.
  - exact HM.
  - rewrite Hc0. unfold int64_ok. lia.
  - rewrite Hc0, Nat.sub_0_r. lia.
  - unfold loop_fuel. lia.
  - unfold DownloadURL. rewrite Hcfg. unfold run. rewrite Hloop, Herr.
    pose proof (run_loop_finalFuncs ctx _ d w o Hloop) as Hff.
    destruct (run_finals (finalFuncs (out_d o)) 0 (out_w o)) as [r w1] eqn:Hf.
    destruct (run_finals_spec _ _ _ _ _ Hf) as (Hd1 & _ & n & _ & Hr).
    eexists. split; [reflexivity |]. simpl. split_and!.
    + now rewrite Hd1.
    + exact Hcnt.
    + intros e ->. destruct Hr as (k & f & _ & Hk & Hfe & _).
      rewrite Hff, (configure_finalFuncs u opts d Hcfg) in Hk.
      apply list_elem_of_lookup_2 in Hk.
      destruct (registered_checks opts f Hk) as (h & expected & -> & _).
      rewrite expectedHashCheck_spec in Hfe.
      case_decide; [discriminate |]. injection Hfe as <-. eauto.
    + intros Hnone. destruct r as [e |]; [| reflexivity]. exfalso.
      destruct Hr as (k & f & _ & Hk & _).
      rewrite Hff, (configure_finalFuncs u opts d Hcfg) in Hk.
      apply list_elem_of_lookup_2 in Hk.
      destruct (registered_checks opts f Hk) as (h & expected & _ & Hin).
      now apply (Hnone h expected).
Qed.

End DriverProperties.

(** ** Concrete sessions *)

Lemma test_Sscanf_int64 (str format : string) (s e t : Z) :
  TestEnv.Sscanf str format = inr (s, e, t) ->
  int64_ok s /\ int64_ok e /\ int64_ok t.
Proof.
  unfold TestEnv.Sscanf.
  destruct (TestEnv.scan3 str) as [[[a b] c] |]; [| discriminate].
  destruct (TestEnv.fits_int64 a) eqn:Ha; [| discriminate].
  destruct (TestEnv.fits_int64 b) eqn:Hb; [| discriminate].
  destruct (TestEnv.fits_int64 c) eqn:Hc; [| discriminate].
  simpl. intros [= <- <- <-].
  unfold TestEnv.fits_int64 in *. unfold int64_ok. lia.
Qed.

Lemma test_script_honest :
  honest_client TestEnv.canon TestEnv.ToLower TestEnv.Sscanf TestEnv.data
    (TestEnv.scripted TestEnv.script).
Proof.
  intros n req resp H. unfold TestEnv.scripted in H.
  destruct n as [| [| n]]; simpl in H; [| | discriminate];
    injection H as <-.
  - split; [intros _ | discriminate].
    split; [left; reflexivity |].
    split; [exists [x03; x04; x05]; reflexivity | discriminate].
  - split; [discriminate | intros _ s e t Hscan].
    vm_compute in Hscan. injection Hscan as <- <- <-.
    split; [simpl; lia |]. split; [reflexivity |].
    split; [exists []; reflexivity | reflexivity].
Qed.

Lemma download_exactly_once_witness :
  exists o,
    TestEnv.DownloadURL (TestEnv.scripted TestEnv.script) TestEnv.no_cancel
      TestEnv.file_url [Some (WithExpectedHash 7 TestEnv.data); None]
      TestEnv.hashing_world = Returned o
    /\ dest (out_w o) = TestEnv.data
    /\ hash_Sum (heap (out_w o) !!! 7%nat) = TestEnv.data.
Proof.
  assert (exists o,
             TestEnv.DownloadURL (TestEnv.scripted TestEnv.script)
               TestEnv.no_cancel TestEnv.file_url
               [Some (WithExpectedHash 7 TestEnv.data); None]
               TestEnv.hashing_world = Returned o
             /\ out_err o = None) as (o & Ho & Herr).
  { vm_compute. eexists. split; reflexivity. }
  exists o. split; [exact Ho |].
  pose (d1 := apply_opt (WithExpectedHash 7 TestEnv.data)
                (new_downloader (TestEnv.scripted TestEnv.script)
                   TestEnv.file_url)).
  destruct (download_exactly_once TestEnv.canon TestEnv.ToLower
              TestEnv.Sscanf TestEnv.NewRequest_err TestEnv.Sprintf
              (TestEnv.scripted TestEnv.script) TestEnv.data
              TestEnv.no_cancel TestEnv.file_url
              [Some (WithExpectedHash 7 TestEnv.data); None]
              TestEnv.hashing_world
              (set_writer (NewWriterCounter (tmpWriter d1)) d1)
              7%nat TestEnv.plain_hasher o)
    as (Hd & _ & _ & Hsum & _).
  - vm_compute. reflexivity.
  - reflexivity.
  - exact test_script_honest.
  - vm_compute. reflexivity.
  - vm_compute. reflexivity.
  - exact Ho.
  - exact Herr.
  - split; [rewrite Hd; reflexivity | rewrite Hsum; reflexivity].
Defined.

Lemma bad_gateway_ends_session_witness :
  exists o,
    TestEnv.DownloadURL (fun _ _ => inr TestEnv.bad_gateway)
      TestEnv.no_cancel TestEnv.file_url [] TestEnv.empty_world = Returned o
    /\ out_err o = Some (Errorf "bad gateway" [])
    /\ requests_sent (out_w o) = 1%nat
    /\ timers_armed (out_w o) = 0%nat
    /\ retryCtr (retryParameters (out_d o)) = 0
    /\ MaxRetries (retryParameters (out_d o)) = 5.
Proof.
  eexists. split.
  - apply (bad_gateway_ends_session TestEnv.canon TestEnv.ToLower
             TestEnv.Sscanf TestEnv.NewRequest_err TestEnv.Sprintf
             (fun _ _ => inr TestEnv.bad_gateway) TestEnv.no_cancel
             TestEnv.file_url [] TestEnv.empty_world
             (set_writer (NewWriterCounter [Dest])
                (new_downloader (fun _ _ => inr TestEnv.bad_gateway)
                   TestEnv.file_url))
             TestEnv.bad_gateway).
    + reflexivity.
    + reflexivity.
    + reflexivity.
    + reflexivity.
  - repeat split.
Defined.

Lemma rejected_request_fails_fast_witness :
  let d := TestEnv.resuming (fun _ _ => inr TestEnv.whole_answer) in
  let w := TestEnv.empty_world in
  let w1 := log (EvRequest (request_of TestEnv.canon TestEnv.Sprintf d)) w in
  let e := NonRetryableWrapf
             (Errorf "unexpected status code on subsequent read: %d" [200]) in
  (exists e1, TestEnv.run TestEnv.no_cancel d w
              = Some (mkOutcome (Some e1) d w1) /\ e1 = e)
  /\ TestEnv.loop_body TestEnv.no_cancel d w
     = inl (mkOutcome (Some e) d w1)
  /\ TestEnv.run TestEnv.no_cancel d w = Some (mkOutcome (Some e) d w1)
  /\ retryParameters d = retryParameters d
  /\ timers_armed w1 = timers_armed w
  /\ (requests_sent w1 <= S (requests_sent w))%nat.
Proof.
  cbv zeta. split.
  - apply (proj2 (rejected_request_fails_fast TestEnv.canon TestEnv.ToLower
                    TestEnv.Sscanf TestEnv.NewRequest_err TestEnv.Sprintf)
             TestEnv.no_cancel
             (TestEnv.resuming (fun _ _ => inr TestEnv.whole_answer))
             TestEnv.empty_world TestEnv.whole_answer).
    + reflexivity.
    + simpl. lia.
    + split; simpl; [lia | discriminate].
    + reflexivity.
    + discriminate.
  - apply (proj1 (rejected_request_fails_fast TestEnv.canon TestEnv.ToLower
                    TestEnv.Sscanf TestEnv.NewRequest_err TestEnv.Sprintf)
             TestEnv.no_cancel
             (TestEnv.resuming (fun _ _ => inr TestEnv.whole_answer))
             (TestEnv.resuming (fun _ _ => inr TestEnv.whole_answer))
             TestEnv.empty_world
             (log (EvRequest
                     (request_of TestEnv.canon TestEnv.Sprintf
                        (TestEnv.resuming
                           (fun _ _ => inr TestEnv.whole_answer))))
                TestEnv.empty_world)
             (NonRetryableWrapf
                (Errorf "unexpected status code on subsequent read: %d"
                   [200]))).
    reflexivity.
Defined.

Lemma content_range_validated_witness :
  let d := TestEnv.resuming (fun _ _ => inr TestEnv.resume_answer) in
  exists w1,
    TestEnv.runInner d TestEnv.empty_world
    = (inr (resp_Body TestEnv.resume_answer), d, w1).
Proof.
  cbv zeta.
  pose proof (content_range_validated TestEnv.canon TestEnv.ToLower
                TestEnv.Sscanf TestEnv.NewRequest_err TestEnv.Sprintf
                test_Sscanf_int64
                (TestEnv.resuming (fun _ _ => inr TestEnv.resume_answer))
                TestEnv.empty_world TestEnv.resume_answer) as H.
  cbv zeta in H.
  replace (TestEnv.Sscanf _ _) with (@inr error _ (2, 4, 5)) in H
    by (vm_compute; reflexivity).
  eexists. apply H.
  - reflexivity.
  - simpl. lia.
  - split; simpl; [lia | discriminate].
  - simpl. lia.
  - reflexivity.
  - reflexivity.
  - simpl. repeat split.
Defined.

Lemma first_attempt_witness :
  let d := new_downloader (fun _ _ => inr TestEnv.not_found)
             TestEnv.file_url in
  exists w1,
    TestEnv.runInner d TestEnv.empty_world
    = (inl (NonRetryableWrapf
              (Errorf "unexpected status code on first read: %d" [404])),
       set_contentLength 9 d, w1).
Proof.
  cbv zeta.
  destruct (first_attempt TestEnv.canon TestEnv.ToLower TestEnv.Sscanf
              TestEnv.NewRequest_err TestEnv.Sprintf
              (new_downloader (fun _ _ => inr TestEnv.not_found)
                 TestEnv.file_url)
              TestEnv.empty_world) as (_ & _ & _ & _ & H).
  - reflexivity.
  - destruct (H TestEnv.not_found) as [_ H404]; [reflexivity .. |].
    eexists. apply H404. discriminate.
Defined.

(** C5, the claim as stated fails: a 502 is a non-OK status on the first
    attempt (offset 0), and the driver treats it as a plain error, not a
    non-retryable one, and records no content length. *)
Lemma bad_gateway_on_first_request :
  let d := new_downloader (fun _ _ => inr TestEnv.bad_gateway)
             TestEnv.file_url in
  Count (writer d) = 0
  /\ StatusCode TestEnv.bad_gateway <> StatusOK
  /\ exists e d1 w1,
       TestEnv.runInner d TestEnv.empty_world = (inl e, d1, w1)
       /\ e = Errorf "bad gateway" []
       /\ is_non_retryable e = false
       /\ contentLength d1 <> ContentLength TestEnv.bad_gateway.
Proof.
  cbv zeta. split; [reflexivity |]. split; [discriminate |].
  eexists _, _, _. split; [reflexivity |].
  split; [reflexivity |]. split; [reflexivity | discriminate].
Qed.

Lemma finalization_in_order_witness :
  let hp : gmap nat Hasher := {[ 7%nat := hash_Write TestEnv.data
                                           TestEnv.plain_hasher ]} in
  expectedHashCheck 7 [] hp = Some (ErrHashMismatch [] TestEnv.data)
  /\ expectedHashCheck 7 TestEnv.data hp = None
  /\ exists d1 w1,
       TestEnv.run TestEnv.no_cancel TestEnv.expecting_nothing
         TestEnv.hashing_world
       = Some (mkOutcome (Some (ErrHashMismatch [] TestEnv.data)) d1 w1).
Proof.
  cbv zeta. split; [| split].
  - apply (proj2 (finalization_in_order TestEnv.canon TestEnv.ToLower
                    TestEnv.Sscanf TestEnv.NewRequest_err TestEnv.Sprintf)).
    vm_compute. discriminate.
  - apply (proj2 (finalization_in_order TestEnv.canon TestEnv.ToLower
                    TestEnv.Sscanf TestEnv.NewRequest_err TestEnv.Sprintf)).
    vm_compute. reflexivity.
  - assert (exists o,
               TestEnv.run_loop
                 (loop_fuel (retryParameters TestEnv.expecting_nothing))
                 TestEnv.no_cancel TestEnv.expecting_nothing
                 TestEnv.hashing_world = Some o
               /\ out_err o = None) as (o & Hloop & Herr).
    { vm_compute. eexists. split; reflexivity. }
    pose proof (proj1 (finalization_in_order TestEnv.canon TestEnv.ToLower
                         TestEnv.Sscanf TestEnv.NewRequest_err TestEnv.Sprintf)
                  TestEnv.no_cancel TestEnv.expecting_nothing
                  TestEnv.hashing_world o Hloop) as H.
    rewrite Herr in H. destruct H as (n & r & w1 & Hrun & _).
    assert (exists d2 w2,
               TestEnv.run TestEnv.no_cancel TestEnv.expecting_nothing
                 TestEnv.hashing_world
               = Some (mkOutcome (Some (ErrHashMismatch [] TestEnv.data))
                         d2 w2)) as (d2 & w2 & Hc).
    { vm_compute. eexists _, _. reflexivity. }
    unfold TestEnv.run in Hc. rewrite Hrun in Hc.
    injection Hc as Hr _ _. exists (out_d o), w1.
    rewrite <- Hr. exact Hrun.
Defined.

(** A session cut once after two bytes: one wait of the base period, a
    resume request for [bytes=2-], and the check of the digest. *)
Example interrupted_then_resumed :
  exists o,
    TestEnv.DownloadURL (TestEnv.scripted TestEnv.script) TestEnv.no_cancel
      TestEnv.file_url [Some (WithExpectedHash 7 TestEnv.data)]
      TestEnv.hashing_world = Returned o
    /\ out_err o = None
    /\ dest (out_w o) = TestEnv.data
    /\ retryCtr (retryParameters (out_d o)) = 1
    /\ TestEnv.summary <$> trace (out_w o)
       = [inl (inl ""); inl (inr (250 * millisecond)); inl (inl "bytes=2-");
          inr 0%nat].
Proof. eexists. split; [vm_compute; reflexivity |]. repeat split. Qed.

(** The same session with a server that answers the resume request with
    the whole resource and a 200: the session ends on the second request;
    the one retry taken is the one of the cut. *)
Example resume_answered_whole :
  exists o,
    TestEnv.DownloadURL
      (TestEnv.scripted [inr TestEnv.first_answer; inr TestEnv.whole_answer])
      TestEnv.no_cancel TestEnv.file_url [] TestEnv.hashing_world = Returned o
    /\ out_err o
       = Some (NonRetryableWrapf
                 (Errorf "unexpected status code on subsequent read: %d"
                    [200]))
    /\ retryCtr (retryParameters (out_d o)) = 1
    /\ requests_sent (out_w o) = 2%nat
    /\ timers_armed (out_w o) = 1%nat.
Proof. eexists. split; [vm_compute; reflexivity |]. repeat split. Qed.

(** Bodies cut again and again use the budget up: with [MaxRetries = 2] the
    third cut ends the session, after three requests and two waits. *)
Example cuts_exhaust_budget :
  exists o,
    TestEnv.DownloadURL (TestEnv.scripted TestEnv.dribble) TestEnv.no_cancel
      TestEnv.file_url [Some (WithRetryParameters TestEnv.two_retries)]
      TestEnv.hashing_world = Returned o
    /\ out_err o = Some ErrRetryParametersExceeded
    /\ requests_sent (out_w o) = 3%nat
    /\ timers_armed (out_w o) = 2%nat
    /\ dest (out_w o) = [x01; x02; x03].
Proof. eexists. split; [vm_compute; reflexivity |]. repeat split. Qed.

(** A digest that is not the expected one fails the session after the
    transfer, with both digests. *)
Example digest_mismatch :
  exists o,
    TestEnv.DownloadURL (fun _ _ => inr TestEnv.whole_answer)
      TestEnv.no_cancel TestEnv.file_url [Some (WithExpectedHash 7 [])]
      TestEnv.hashing_world = Returned o
    /\ out_err o = Some (ErrHashMismatch [] TestEnv.data)
    /\ dest (out_w o) = TestEnv.data
    /\ retryCtr (retryParameters (out_d o)) = 0.
Proof. eexists. split; [vm_compute; reflexivity |]. repeat split. Qed.

(** * Further properties *)

(** ** The retry policy over a series of calls *)

Lemma Wait_timers_geometric (calls : list (option ctx_err * Z))
    (p : RetryParameters) (i : nat) :
  int64_ok (MaxRetries p) -> int64_ok (retryCtr p) ->
  retryCtr p + Z.of_nat (length calls) <= MaxRetries p ->
  BaseWait p <> 0 -> WaitMultiplier p <> 0 ->
  (forall j : nat, (j <= length calls)%nat ->
     int64_ok (BaseWait p * WaitMultiplier p ^ Z.of_nat (i + j))) ->
  (currentWait p = BaseWait p * WaitMultiplier p ^ Z.of_nat i
   \/ (currentWait p = 0 /\ i = 0%nat)) ->
  stalled (prevPos p) calls ->
  Wait_timers p calls
  = (fun j : nat => BaseWait p * WaitMultiplier p ^ Z.of_nat j)
      <$> seq i (length calls).
Proof.
  revert p i.
  induction calls as [| [done pos] rest IH];
    intros p i HM Hc Hlen HB Hm Hfit Hcw Hst; [reflexivity |].
  simpl in Hlen, Hst. destruct Hst as [Hslow Hst].
  assert (Hlt : retryCtr p < MaxRetries p) by lia.
  assert (Hnz : BaseWait p * WaitMultiplier p ^ Z.of_nat i <> 0).
  { apply Z.neq_mul_0. split; [exact HB |]. apply Z.pow_nonzero; lia. }
  assert (Ht : (if reset_due p pos then BaseWait p else currentWait p)
               = BaseWait p * WaitMultiplier p ^ Z.of_nat i).
  { destruct (reset_due p pos) eqn:Hr.
    - apply reset_due_true in Hr.
      destruct Hr as [H0 | [Hp Hgt]].
      + destruct Hcw as [Hcw | [_ ->]]; [congruence |].
        simpl. lia.
      + destruct Hslow as [? | ?]; [contradiction | lia].
    - destruct Hcw as [Hcw | [H0 _]]; [exact Hcw |].
      exfalso. assert (reset_due p pos = true); [| congruence].
      apply reset_due_true. now left. }
  cbn [Wait_timers]. cbv zeta.
  rewrite (Wait_armed p done pos Hlt). cbv zeta. cbn [wait_timer wait_params].
  rewrite Ht. cbn [length seq fmap list_fmap]. f_equal.
  assert (Hnext : int64_wrap
                    (BaseWait p * WaitMultiplier p ^ Z.of_nat i
                     * WaitMultiplier p)
                  = BaseWait p * WaitMultiplier p ^ Z.of_nat (S i)).
  { replace (BaseWait p * WaitMultiplier p ^ Z.of_nat i * WaitMultiplier p)
      with (BaseWait p * WaitMultiplier p ^ Z.of_nat (S i)).
    - apply int64_wrap_id. specialize (Hfit 1%nat ltac:(simpl; lia)).
      now replace (i + 1)%nat with (S i) in Hfit by lia.
    - rewrite Nat2Z.inj_succ, Z.pow_succ_r by lia. ring. }
  rewrite Hnext.
  match goal with
  | |- Wait_timers ?q _ = _ =>
      change (Wait_timers q rest
              = (fun j : nat => BaseWait q * WaitMultiplier q ^ Z.of_nat j)
                  <$> seq (S i) (length rest));
      apply (IH q (S i))
  end;
    cbn [MaxRetries retryCtr BaseWait WaitMultiplier currentWait prevPos].
  - exact HM.
  - apply int64_wrap_ok.
  - rewrite int64_wrap_id by (unfold int64_ok in *; lia). lia.
  - exact HB.
  - exact Hm.
  - intros j Hj. specialize (Hfit (S j) ltac:(simpl; lia)).
    now replace (i + S j)%nat with (S i + j)%nat in Hfit by lia.
  - now left.
  - exact Hst.
Qed.

(** X1. Exponential backoff: on a fresh policy, calls that see no reset
    progress and stay within the budget sleep for [BaseWait],
    [BaseWait * WaitMultiplier], [BaseWait * WaitMultiplier^2], ... (base
    and multiplier non-zero, the products within [time.Duration]). *)
Theorem Wait_backoff_is_exponential (p : RetryParameters)
    (calls : list (option ctx_err * Z)) :
  fresh p -> int64_ok (MaxRetries p) ->
  Z.of_nat (length calls) <= MaxRetries p ->
  BaseWait p <> 0 -> WaitMultiplier p <> 0 ->
  (forall j : nat, (j <= length calls)%nat ->
     int64_ok (BaseWait p * WaitMultiplier p ^ Z.of_nat j)) ->
  stalled 0 calls ->
  Wait_timers p calls
  = (fun j : nat => BaseWait p * WaitMultiplier p ^ Z.of_nat j)
      <$> seq 0 (length calls).
Proof.
  intros (Hcw & Hc & Hp) HM Hlen HB Hm Hfit Hst.
  apply Wait_timers_geometric; try assumption.
  - rewrite Hc. unfold int64_ok. lia.
  - rewrite Hc. lia.
  - right. split; [exact Hcw | reflexivity].
  - now rewrite Hp.
Qed.

Lemma Wait_backoff_is_exponential_witness :
  Wait_timers DefaultRetryParameters
    [(None, 0); (None, 4096); (None, 4096); (Some Canceled, 8192);
     (None, 8192)]
  = [250 * millisecond; 500 * millisecond; 1000 * millisecond;
     2000 * millisecond; 4000 * millisecond].
Proof.
  apply (Wait_backoff_is_exponential DefaultRetryParameters
           [(None, 0); (None, 4096); (None, 4096); (Some Canceled, 8192);
            (None, 8192)]).
  - repeat split.
  - unfold int64_ok. simpl. lia.
  - simpl. lia.
  - discriminate.
  - discriminate.
  - intros j Hj. simpl in Hj. unfold int64_ok.
    destruct j as [| [| [| [| [| [| j]]]]]]; [.. | exfalso; lia];
      split; vm_compute; (discriminate || reflexivity).
  - cbn [stalled].
    repeat split; first [left; reflexivity | right; vm_compute; discriminate].
Defined.

Lemma Wait_seq_counter (calls : list (option ctx_err * Z))
    (p : RetryParameters) :
  int64_ok (MaxRetries p) -> int64_ok (retryCtr p) ->
  retryCtr p <= MaxRetries p ->
  retryCtr (Wait_seq p calls)
  = Z.min (retryCtr p + Z.of_nat (length calls)) (MaxRetries p)
  /\ Z.of_nat (length (Wait_timers p calls))
     = retryCtr (Wait_seq p calls) - retryCtr p.
Proof.
  revert p. induction calls as [| [done pos] rest IH]; intros p HM Hc Hle.
  - simpl. lia.
  - cbn [Wait_seq Wait_timers length]. cbv zeta.
    destruct (Z_le_gt_dec (MaxRetries p) (retryCtr p)) as [Hge | Hgt].
    + rewrite (Wait_exceeded p done pos Hge). cbn [wait_params wait_timer].
      destruct (IH p HM Hc Hle) as [H1 H2]. rewrite H1, H2. lia.
    + pose proof (Wait_retryCtr_armed p done pos HM Hc ltac:(lia)) as Hctr.
      pose proof (Wait_MaxRetries p done pos) as HMax.
      destruct (IH (wait_params (Wait p done pos))) as [H1 H2].
      * now rewrite HMax.
      * rewrite Hctr. unfold int64_ok in *. lia.
      * rewrite HMax, Hctr. lia.
      * rewrite HMax, Hctr in H1. rewrite Hctr in H2.
        rewrite (Wait_armed p done pos ltac:(lia)) in *.
        cbn [wait_params wait_timer] in *. cbn [length].
        rewrite H1. split; lia.
Qed.

(** X2. The budget is exact: over any sequence of calls the counter ends at
    the smaller of [MaxRetries] and its start plus the number of calls, and
    the number of sleeps made is the number of retries taken; a fresh
    policy grants [MaxRetries] sleeps and no more. *)
Theorem Wait_grants_MaxRetries (p : RetryParameters)
    (calls : list (option ctx_err * Z)) :
  int64_ok (MaxRetries p) -> int64_ok (retryCtr p) ->
  retryCtr p <= MaxRetries p ->
  retryCtr (Wait_seq p calls)
  = Z.min (retryCtr p + Z.of_nat (length calls)) (MaxRetries p)
  /\ Z.of_nat (length (Wait_timers p calls))
     = Z.min (Z.of_nat (length calls)) (MaxRetries p - retryCtr p).
Proof.
  intros HM Hc Hle.
  destruct (Wait_seq_counter calls p HM Hc Hle) as [H1 H2].
  split; [exact H1 | lia].
Qed.

Lemma Wait_grants_MaxRetries_witness :
  let calls := [(None, 1); (None, 2); (None, 3); (None, 4); (None, 5);
                (None, 6); (None, 7)] in
  retryCtr (Wait_seq DefaultRetryParameters calls) = 5
  /\ Z.of_nat (length (Wait_timers DefaultRetryParameters calls)) = 5.
Proof.
  cbv zeta.
  apply (Wait_grants_MaxRetries DefaultRetryParameters
           [(None, 1); (None, 2); (None, 3); (None, 4); (None, 5);
            (None, 6); (None, 7)]).
  - unfold int64_ok. simpl. lia.
  - unfold int64_ok. simpl. lia.
  - simpl. lia.
Defined.

(** ** The header flags *)

Lemma cut_colon_None (s : string) :
  cut_colon s = None <-> ~ In ":"%char (list_ascii_of_string s).
Proof.
  induction s as [| c rest IH]; simpl; [tauto |].
  destruct (Ascii.eqb_spec c ":") as [-> | Hne].
  - split; [discriminate | intros H; exfalso; apply H; now left].
  - destruct (cut_colon rest) as [[a b] |].
    + split; [discriminate |]. intros H. exfalso.
      assert (Hin : ~ In ":"%char (list_ascii_of_string rest))
        by (intros Hin; apply H; now right).
      apply IH in Hin. discriminate.
    + split; [| reflexivity]. intros _ [Heq | Hin]; [congruence |].
      now apply (proj1 IH).
Qed.

Lemma cut_colon_Some (s k v : string) :
  cut_colon s = Some (k, v)
  <-> s = k +:+ ":" +:+ v /\ ~ In ":"%char (list_ascii_of_string k).
Proof.
  revert k. induction s as [| c rest IH]; intros k; simpl.
  - split; [discriminate |]. intros [H _]. destruct k; discriminate.
  - destruct (Ascii.eqb_spec c ":") as [-> | Hne].
    + split.
      * intros [= <- <-]. split; [reflexivity | intros []].
      * intros [H Hk]. destruct k as [| c1 k1]; simpl in H.
        -- now injection H as ->.
        -- injection H as <- _. exfalso. apply Hk. now left.
    + destruct (cut_colon rest) as [[a b] |] eqn:Hcut.
      * split.
        -- intros [= <- <-]. destruct (proj1 (IH a) eq_refl) as [-> Ha].
           split; [reflexivity |]. intros [Heq | Hin]; [congruence | tauto].
        -- intros [H Hk]. destruct k as [| c1 k1]; simpl in H.
           ++ injection H as -> _. congruence.
           ++ injection H as <- ->.
              assert (Hk1 : ~ In ":"%char (list_ascii_of_string k1))
                by (intros Hin; apply Hk; now right).
              pose proof (proj2 (IH k1) (conj eq_refl Hk1)) as E.
              injection E as -> ->. reflexivity.
      * split; [discriminate |]. intros [H Hk].
        destruct k as [| c1 k1]; simpl in H.
        -- injection H as -> _. congruence.
        -- injection H as <- ->.
           assert (Hk1 : ~ In ":"%char (list_ascii_of_string k1))
             by (intros Hin; apply Hk; now right).
           pose proof (proj2 (IH k1) (conj eq_refl Hk1)) as E.
           discriminate.
Qed.

(** X11. A [-header] value is cut at its first colon: the name is what
    precedes it, and the value is everything after it, kept as it is (a
    space after the colon and later colons included); a value without a
    colon ends the program with code 1 and the [Invalid header] message. *)
Theorem header_cut_at_first_colon (header : string)
    (headerMap : gmap string string) :
  (forall k v,
      header = k +:+ ":" +:+ v ->
      ~ In ":"%char (list_ascii_of_string k) ->
      parse_headers [header] headerMap = Go (<[k := v]> headerMap))
  /\ (~ In ":"%char (list_ascii_of_string header) ->
      parse_headers [header] headerMap
      = Exit 1 ("Invalid header: " +:+ header +:+ newline)).
Proof.
  split.
  - intros k v Heq Hk. simpl. unfold SplitN2.
    rewrite (proj2 (cut_colon_Some header k v) (conj Heq Hk)). reflexivity.
  - intros Hno. simpl. unfold SplitN2.
    rewrite (proj2 (cut_colon_None header) Hno). reflexivity.
Qed.

Lemma header_cut_at_first_colon_witness :
  parse_headers ["Authorization: Bearer a:b"] ∅
  = Go {[ "Authorization" := " Bearer a:b" ]}
  /\ parse_headers ["Accept"] ∅
     = Exit 1 ("Invalid header: Accept" +:+ newline).
Proof.
  split.
  - apply (proj1 (header_cut_at_first_colon "Authorization: Bearer a:b" ∅)
             "Authorization" " Bearer a:b").
    + reflexivity.
    + simpl. intros H. repeat (destruct H as [H | H]; [discriminate |]).
      exact H.
  - apply (proj2 (header_cut_at_first_colon "Accept" ∅)).
    simpl. intros H. repeat (destruct H as [H | H]; [discriminate |]).
    exact H.
Defined.

Lemma parse_headers_app (hs1 hs2 : list string) (m : gmap string string) :
  parse_headers (hs1 ++ hs2) m
  = match parse_headers hs1 m with
    | Exit code msg => Exit code msg
    | Go m1 => parse_headers hs2 m1
    end.
Proof.
  revert m. induction hs1 as [| h rest IH]; intros m; simpl; [reflexivity |].
  destruct (negb _); [reflexivity | apply IH].
Qed.

Lemma parse_headers_entries (hs : list string) (m : gmap string string) :
  Forall (fun h => In ":"%char (list_ascii_of_string h)) hs ->
  parse_headers hs m
  = Go (foldl (fun acc kv => <[kv.1 := kv.2]> acc) m (omap cut_colon hs)).
Proof.
  revert m. induction hs as [| h rest IH]; intros m Hall; [reflexivity |].
  apply Forall_cons in Hall as [Hh Hall]. simpl. unfold SplitN2.
  destruct (cut_colon h) as [[k v] |] eqn:Hcut.
  - simpl. now rewrite IH.
  - apply cut_colon_None in Hcut. contradiction.
Qed.

(** X12. The header flags are taken in order: when every one has a colon
    they all go into the map, a later flag replacing an earlier one of the
    same name; the first one without a colon ends the program with code 1,
    whatever follows it. *)
Theorem headers_in_order (hs : list string) :
  Forall (fun h => In ":"%char (list_ascii_of_string h)) hs ->
  (exists m, parse_headers hs ∅ = Go m)
  /\ (forall k v,
        ~ In ":"%char (list_ascii_of_string k) ->
        exists m,
          parse_headers (hs ++ [k +:+ ":" +:+ v]) ∅ = Go m
          /\ m !! k = Some v)
  /\ (forall h rest,
        ~ In ":"%char (list_ascii_of_string h) ->
        parse_headers (hs ++ h :: rest) ∅
        = Exit 1 ("Invalid header: " +:+ h +:+ newline)).
Proof.
  intros Hall.
  split; [eexists; exact (parse_headers_entries hs ∅ Hall) |]. split.
  - intros k v Hk. rewrite parse_headers_app, (parse_headers_entries hs ∅ Hall).
    simpl. unfold SplitN2.
    rewrite (proj2 (cut_colon_Some (k +:+ ":" +:+ v) k v) (conj eq_refl Hk)).
    simpl. eexists. split; [reflexivity |].
    apply lookup_insert_eq.
  - intros h rest Hno.
    rewrite parse_headers_app, (parse_headers_entries hs ∅ Hall).
    simpl. unfold SplitN2.
    rewrite (proj2 (cut_colon_None h) Hno). reflexivity.
Qed.

Lemma headers_in_order_witness :
  (exists m,
      parse_headers ["Accept: a"; "X-Id:1"; "Accept: b"] ∅ = Go m
      /\ m !! "Accept" = Some " b")
  /\ parse_headers ["Accept: a"; "X-Id:1"; "oops"; "Accept: b"] ∅
     = Exit 1 ("Invalid header: oops" +:+ newline).
Proof.
  assert (Hall : Forall (fun h => In ":"%char (list_ascii_of_string h))
                   ["Accept: a"; "X-Id:1"]).
  { repeat constructor; simpl; tauto. }
  destruct (headers_in_order ["Accept: a"; "X-Id:1"] Hall) as (_ & H2 & H3).
  split.
  - apply (H2 "Accept" " b"). simpl. intros H.
    repeat (destruct H as [H | H]; [discriminate |]). exact H.
  - apply (H3 "oops" ["Accept: b"]). simpl. intros H.
    repeat (destruct H as [H | H]; [discriminate |]). exact H.
Defined.
